(** * scanflash: the verification engine and the partition-table codec

    A shallow embedding of [device.cpp] (the Master Boot Record writer) and
    [check.cpp] (pattern generation, write pass, read pass), together with
    the properties of the design document that are settled against them.

    Conventions.
    - [block_t] is [unsigned long long]: a [Z] reduced with [u64] after every
      operation that can leave the range.  [unsigned int] is reduced with
      [u32], [uint8_t] with [u8].
    - A byte buffer ([uint8_t buf[N]]) is a [list Z]; a store through a
      pointer [&buf[i]] is the list update [<[i:=v]>] at that index.  Every
      store of the program is in range; out of range the update leaves the
      list untouched.
    - Device calls and callbacks are recorded in a trace of events; what the
      device and the user answer is given by oracles.
    - Console output ([std::cout]) is not modelled. *)

From Stdlib Require Import ZArith Lia Ascii String.
From stdpp Require Import base tactics option list numbers.

Local Open Scope Z_scope.

(** ** Machine integers *)

Definition u8 (z : Z) : Z := z mod 2 ^ 8.
Definition u32 (z : Z) : Z := z mod 2 ^ 32.
Definition u64 (z : Z) : Z := z mod 2 ^ 64.

(** The object representation of an integer, as [memcpy] and pointer casts
    see it, depends on the host. *)
Inductive endianness : Set := LittleEndian | BigEndian.

Fixpoint le_bytes (n : nat) (v : Z) : list Z :=
  match n with
  | O => []
  | S n' => v mod 256 :: le_bytes n' (v / 256)
  end.

Fixpoint le_value (l : list Z) : Z :=
  match l with
  | [] => 0
  | b :: l' => b + 256 * le_value l'
  end.

Definition object_bytes (host : endianness) (n : nat) (v : Z) : list Z :=
  match host with
  | LittleEndian => le_bytes n v
  | BigEndian => reverse (le_bytes n v)
  end.

(** [memcpy(&buf[i], src, length src)] *)
Definition memcpy (i : nat) (src : list Z) (buf : list Z) : list Z :=
  list_inserts i src buf.

(** ** device.cpp *)

Module Device.

Definition MBR_LEN : nat := 512.
Definition MBR_SECTOR_SIZE : Z := 512.
Definition CHS_NUMSECTORS : Z := 63.
Definition CHS_NUMHEADS : Z := 16.
Definition MBR_MIN_PART_SIZE : Z := 16 * 1048576 / MBR_SECTOR_SIZE.
Definition MBR_PTYPE_GOOD : Z := 0x0C.
Definition MBR_PTYPE_BAD : Z := 0xFF.

(** [void store32le(uint8_t *dest, uint32_t val)]; [dest] is [&buf[dest]],
    the argument is converted to [uint32_t] at the call. *)
Definition store32le (dest : nat) (val : Z) (buf : list Z) : list Z :=
  let val := u32 val in
  let buf := <[dest := Z.land val 0xFF]> buf in
  let buf := <[(dest + 1)%nat := Z.land (Z.shiftr val 8) 0xFF]> buf in
  let buf := <[(dest + 2)%nat := Z.land (Z.shiftr val 16) 0xFF]> buf in
  <[(dest + 3)%nat := Z.land (Z.shiftr val 24) 0xFF]> buf.

(** [void lba2chs(block_t lba, uint8_t *chs)]; the three locals are
    [unsigned int], the stores cast to [uint8_t]. *)
Definition lba2chs (lba : Z) (chs : nat) (buf : list Z) : list Z :=
  let cyls := u32 (lba / (CHS_NUMSECTORS * CHS_NUMHEADS)) in
  let heads := u32 ((lba / CHS_NUMSECTORS) mod CHS_NUMHEADS) in
  let sectors := u32 (lba mod CHS_NUMSECTORS + 1) in
  let buf := <[chs := u8 heads]> buf in
  let buf :=
    <[(chs + 1)%nat := u8 (Z.lor (Z.shiftr (Z.land cyls 0x300) 2) sectors)]> buf in
  <[(chs + 2)%nat := u8 (Z.land cyls 0xFF)]> buf.

(** [void writeEntry(uint8_t *mbr, unsigned int index, block_t start,
    block_t end, uint8_t type)] *)
Definition writeEntry (mbr : list Z) (index : nat) (start end_ : Z) (type : Z)
  : list Z :=
  let part := (0x1BE + index * 16)%nat in
  let mbr := lba2chs start (part + 0x1)%nat mbr in
  let mbr := lba2chs end_ (part + 0x5)%nat mbr in
  let mbr := <[(part + 0x4)%nat := type]> mbr in
  let mbr := store32le (part + 0x8)%nat start mbr in
  store32le (part + 0xc)%nat (u64 (end_ - start + 1)) mbr.

(** The table under construction: the image and [partNum]. *)
Definition table : Type := list Z * nat.

(** [writeEntry(mbr, partNum++, start, end, type)] *)
Definition addEntry (t : table) (start end_ type : Z) : table :=
  (writeEntry t.1 t.2 start end_ type, S t.2).

(** [Device::writePartitionTable(firstBad, lastBad, size)], up to the image
    handed to [seek(0); write(mbr, MBR_LEN)].  [serial] is what [random()]
    returned. *)
Definition writePartitionTable (host : endianness) (serial : Z)
    (firstBad lastBad size : Z) : table :=
  let mbr := replicate MBR_LEN 0 in
  let mbr := memcpy 0x1B8 (object_bytes host 4 (u32 serial)) mbr in
  let start := firstBad / MBR_SECTOR_SIZE in
  let end_ := u64 (lastBad + 1) / MBR_SECTOR_SIZE in
  let num := size / MBR_SECTOR_SIZE in
  let t : table := (mbr, 0%nat) in
  let t :=
    if start >? MBR_MIN_PART_SIZE
    then addEntry t 0 start MBR_PTYPE_GOOD else t in
  let t :=
    if negb (start =? 0) && negb (end_ =? 0)
    then addEntry t start end_ MBR_PTYPE_BAD else t in
  let t :=
    if end_ <? u64 (num - MBR_MIN_PART_SIZE)
    then addEntry t end_ num MBR_PTYPE_GOOD else t in
  let mbr := <[0x1FE%nat := 0x55]> t.1 in
  let mbr := <[0x1FF%nat := 0xAA]> mbr in
  (mbr, t.2).

End Device.

(** ** check.cpp *)

Module Check.

Definition DATA_BLOCK_SIZE : Z := 4096.
Definition blockLen : nat := 4096.
Definition sizeof_block_t : nat := 8.

(** The loop of [prepareBuf]:
    [for (i = 0; i < len; i += sizeof(block_t)) memcpy(&buf[i], &blockNum, 8)].
    [i] grows by eight in every round, so [len] rounds are never used up. *)
Fixpoint prepareBuf_loop (rounds : nat) (i len : nat) (src buf : list Z)
  : list Z :=
  match rounds with
  | O => buf
  | S rounds' =>
      if (i <? len)%nat
      then prepareBuf_loop rounds' (i + sizeof_block_t) len src (memcpy i src buf)
      else buf
  end.

(** [void prepareBuf(uint8_t *buf, unsigned int len, block_t blockNum)] *)
Definition prepareBuf (host : endianness) (buf : list Z) (len : nat)
    (blockNum : Z) : list Z :=
  let blockNum := u64 (blockNum + 1) in
  prepareBuf_loop len 0 len (object_bytes host sizeof_block_t blockNum) buf.

(** [prepareBuf(origBuf, DATA_BLOCK_SIZE, b)] on a fresh stack buffer. *)
Definition pattern (host : endianness) (b : Z) : list Z :=
  prepareBuf host (replicate blockLen 0) blockLen b.

(** [memcmp(origBuf, buf, DATA_BLOCK_SIZE) == 0] with
    [origBuf = pattern b]. *)
Definition matches (host : endianness) (buf : list Z) (b : Z) : bool :=
  bool_decide (take blockLen buf = pattern host b).

(** *** The world the engine runs in *)

Inductive read_outcome : Type :=
  | ReadData (buf : list Z)
  | ReadError.

(** Answers of the device, of the callback object and of the console.
    [readProgress] is a function of its arguments: within one read pass no
    two calls have the same arguments, so this loses no callback. *)
Record world : Type := {
  w_size : Z;                          (* dev->size() *)
  w_read_at : Z -> read_outcome;       (* seek(off); read() in write() *)
  w_resumeWrite : bool;                (* cb->resumeWrite() *)
  w_write_ok : Z -> bool;              (* does the write of block b succeed *)
  w_sync_ok : bool;                    (* dev->sync() *)
  w_stdin : list ascii;                (* characters typed, blanks skipped *)
  w_reopen_ok : nat -> bool;           (* the n-th dev->reopen() *)
  w_read_seq : Z -> read_outcome;      (* the b-th read() of the read pass *)
  w_readProgress : Z -> bool -> bool;  (* cb->readProgress(b, fail) *)
  w_serial : Z;                        (* random() *)
  w_table_ok : bool                    (* does writing the table succeed *)
}.

Inductive event : Type :=
  | DevSeek (off : Z)
  | DevRead
  | DevWrite (data : list Z)
  | DevSync
  | DevClose
  | DevReopen
  | DevWritePartitionTable (firstBad lastBad size : Z)
  | CbResumeWrite
  | CbWriteStart (startBlock numBlocks : Z)
  | CbWriteProgress (b : Z)
  | CbWriteFinish
  | CbReadStart (startBlock numBlocks : Z)
  | CbReadProgress (b : Z) (fail : bool)
  | CbReadFinish
  | StdinKey (key : ascii).

(** *** Calls that are logged and may throw *)

Inductive outcome (A : Type) : Type :=
  | Return (a : A)
  | Throw (what : string).
Arguments Return {A} a.
Arguments Throw {A} what.

Definition M (A : Type) : Type := list event * outcome A.

Definition ret {A} (a : A) : M A := ([], Return a).
Definition throw {A} (what : string) : M A := ([], Throw what).
Definition emit (e : event) : M unit := ([e], Return tt).

Definition bind {A B} (m : M A) (k : A -> M B) : M B :=
  match m with
  | (tr, Return a) => let '(tr', r) := k a in (tr ++ tr', r)
  | (tr, Throw what) => (tr, Throw what)
  end.

(** [try { m } catch (const error& e) { handler }] *)
Definition try_catch {A} (m : M A) (handler : string -> M A) : M A :=
  match m with
  | (tr, Return a) => (tr, Return a)
  | (tr, Throw what) => let '(tr', r) := handler what in (tr ++ tr', r)
  end.

Notation "'let*' x ':=' m 'in' k" := (bind m (fun x => k))
  (at level 10, x pattern, m at level 100, k at level 200).
Notation "m ';;' k" := (bind m (fun _ => k))
  (at level 100, k at level 200, right associativity).

Definition trace {A} (m : M A) : list event := m.1.
Definition result {A} (m : M A) : outcome A := m.2.

Section Engine.

Context (host : endianness) (w : world).

(** [Check::Check]: [numBlocks = dev->size() / DATA_BLOCK_SIZE] *)
Definition numBlocks : Z := u64 (w_size w) / DATA_BLOCK_SIZE.

Definition dev_seek (off : Z) : M unit := emit (DevSeek off).

Definition dev_read (r : read_outcome) : M (list Z) :=
  emit DevRead ;;
  match r with
  | ReadData buf => ret buf
  | ReadError => throw "read"
  end.

Definition dev_write (ok : bool) (data : list Z) : M unit :=
  emit (DevWrite data) ;; if ok then ret tt else throw "write".

Definition dev_sync : M unit :=
  emit DevSync ;; if w_sync_ok w then ret tt else throw "sync".

Definition dev_reopen (n : nat) : M unit :=
  emit DevReopen ;; if w_reopen_ok w n then ret tt else throw "reopen".

(** [dev->writePartitionTable(firstBad, lastBad, size)]: the call, then the
    [seek(0)] and [write(mbr, MBR_LEN)] it makes. *)
Definition dev_writePartitionTable (firstBad lastBad size : Z) : M unit :=
  emit (DevWritePartitionTable firstBad lastBad size) ;;
  dev_seek 0 ;;
  dev_write (w_table_ok w)
    (Device.writePartitionTable host (w_serial w) firstBad lastBad size).1.

Definition cb_resumeWrite : M bool :=
  emit CbResumeWrite ;; ret (w_resumeWrite w).

Definition cb_readProgress (b : Z) (fail : bool) : M bool :=
  emit (CbReadProgress b fail) ;; ret (w_readProgress w b fail).

(** [char key = 'n'; std::cin >> key;]: at the end of the input [key] keeps
    its initialiser. *)
Definition cin_key (input : list ascii) : ascii :=
  match input with
  | [] => "n"%char
  | key :: _ => key
  end.

(** *** Check::write *)

(** One round of the resume search: block [startBlock] is read and compared;
    [remainingBlocks] is the count after [remainingBlocks /= 2]. *)
Definition resume_probe (remainingBlocks startBlock : Z) : M Z :=
  dev_seek (u64 (startBlock * DATA_BLOCK_SIZE)) ;;
  let* buf := dev_read (w_read_at w (u64 (startBlock * DATA_BLOCK_SIZE))) in
  if matches host buf startBlock
  then ret (u64 (startBlock + remainingBlocks))
  else ret (u64 (startBlock - remainingBlocks)).

(** [while (remainingBlocks > 1) { ...; remainingBlocks /= 2; ... }].
    The recursion is on the binary digits of [remainingBlocks]: dropping the
    last digit is the division by two ([resume_loop_pos_div2] below). *)
Fixpoint resume_loop_pos (remainingBlocks : positive) (startBlock : Z) : M Z :=
  match remainingBlocks with
  | xH => ret startBlock
  | xO half | xI half =>
      let* startBlock := resume_probe (Z.pos half) startBlock in
      resume_loop_pos half startBlock
  end.

Definition resume_loop (remainingBlocks startBlock : Z) : M Z :=
  match remainingBlocks with
  | Z.pos p => resume_loop_pos p startBlock
  | _ => ret startBlock
  end.

(** [for (b = startBlock; b < numBlocks; b++)], [count] rounds left. *)
Fixpoint write_loop (count : nat) (b : Z) : M unit :=
  match count with
  | O => ret tt
  | S count' =>
      (if b mod 256 =? 0 then emit (CbWriteProgress b) else ret tt) ;;
      dev_write (w_write_ok w b) (pattern host b) ;;
      write_loop count' (b + 1)
  end.

Definition is_yes (key : ascii) : bool :=
  Ascii.eqb key "y" || Ascii.eqb key "Y".

(** The [for (;;)] of the [catch] block; every round takes one key. *)
Fixpoint recover (input : list ascii) (attempt : nat) : M unit :=
  emit (StdinKey (cin_key input)) ;;
  if negb (is_yes (cin_key input)) then throw "Aborted by user"
  else
    match input with
    | [] => throw "Aborted by user"
    | _ :: input' =>
        try_catch (dev_reopen attempt) (fun _ => recover input' (S attempt))
    end.

(** Lines 62-111: resume detection and the block writes. *)
Definition write_blocks : M unit :=
  dev_seek 0 ;;
  let* buf := dev_read (w_read_at w 0) in
  let* startBlock :=
    if matches host buf 0 then
      let* resume := cb_resumeWrite in
      if resume then
        let remainingBlocks := numBlocks / 2 in
        resume_loop remainingBlocks remainingBlocks
      else ret 0
    else ret 0 in
  dev_seek (u64 (startBlock * DATA_BLOCK_SIZE)) ;;
  emit (CbWriteStart startBlock numBlocks) ;;
  write_loop (Z.to_nat (numBlocks - startBlock)) startBlock ;;
  emit (CbWriteProgress (u64 (numBlocks - 1))) ;;
  emit CbWriteFinish.

(** Lines 113-137: the flush and its recovery. *)
Definition write_sync : M unit :=
  try_catch dev_sync (fun _ => emit DevClose ;; recover (w_stdin w) 0).

Definition write : M unit := write_blocks ;; write_sync.

(** *** Check::read *)

Record scan : Type := {
  firstBad : bool;
  firstBadBlock : Z;
  lastBadBlock : Z;
  fail : bool
}.

Definition scan0 : scan :=
  {| firstBad := false; firstBadBlock := 0; lastBadBlock := 0; fail := false |}.

(** [if (!firstBad) { firstBadBlock = b; firstBad = true; } lastBadBlock = b;] *)
Definition mark (b : Z) (fl : bool) (s : scan) : scan :=
  {| firstBad := true;
     firstBadBlock := if firstBad s then firstBadBlock s else b;
     lastBadBlock := b;
     fail := fl |}.

Definition set_fail (fl : bool) (s : scan) : scan :=
  {| firstBad := firstBad s; firstBadBlock := firstBadBlock s;
     lastBadBlock := lastBadBlock s; fail := fl |}.

(** The body of the read loop for block [b]. *)
Definition read_block (b : Z) (s : scan) : M scan :=
  let* s :=
    try_catch
      (let* buf := dev_read (w_read_seq w b) in
       if negb (matches host buf b) then ret (mark b false s)
       else ret (set_fail false s))
      (fun _ => ret (mark b true s)) in
  (if (b mod 256 =? 0) || fail s then
     let* go := cb_readProgress b (fail s) in
     if negb go then throw "Verification operation aborted" else ret tt
   else ret tt) ;;
  ret s.

(** [for (b = startBlock; b < numBlocks; b++)], [count] rounds left. *)
Fixpoint read_loop (count : nat) (b : Z) (s : scan) : M scan :=
  match count with
  | O => ret s
  | S count' =>
      let* s := read_block b s in
      read_loop count' (b + 1) s
  end.

Definition read : M unit :=
  dev_seek 0 ;;
  emit (CbReadStart 0 numBlocks) ;;
  let* s := read_loop (Z.to_nat numBlocks) 0 scan0 in
  (if negb (fail s)
   then cb_readProgress (u64 (numBlocks - 1)) true ;; ret tt
   else ret tt) ;;
  emit CbReadFinish ;;
  if firstBad s then
    dev_writePartitionTable
      (u64 (firstBadBlock s * DATA_BLOCK_SIZE))
      (u64 (u64 ((lastBadBlock s + 1) * DATA_BLOCK_SIZE) - 1))
      (u64 (numBlocks * DATA_BLOCK_SIZE))
  else
    dev_writePartitionTable 0 0 (u64 (numBlocks * DATA_BLOCK_SIZE)).

(** [main]: [chk->write(); chk->read();] *)
Definition run : M unit := write ;; read.

End Engine.

End Check.

(** ** main.cpp: the console callback *)

Module ConsoleUI.

Definition MAX_READ_ERROR_TIME : Z := 15.

(** The members of [ConsoleUI] that the read reports use.  [tmStart] is
    folded into the durations: a duration is [tmNow.tv_sec - tmStart.tv_sec]
    as the clock gives it at the call. *)
Record ui : Type := {
  startBlock : Z;
  numBlocks : Z;
  lastDuration : Z;
  firstReadError : Z
}.

(** [ConsoleUI::readStart(startBlock, numBlocks)] *)
Definition readStart (startBlock numBlocks : Z) (st : ui) : ui :=
  {| startBlock := startBlock; numBlocks := numBlocks;
     lastDuration := 0; firstReadError := 0 |}.

Definition set_lastDuration (d : Z) (st : ui) : ui :=
  {| startBlock := startBlock st; numBlocks := numBlocks st;
     lastDuration := d; firstReadError := firstReadError st |}.

Definition set_firstReadError (d : Z) (st : ui) : ui :=
  {| startBlock := startBlock st; numBlocks := numBlocks st;
     lastDuration := lastDuration st; firstReadError := d |}.

(** [ConsoleUI::readProgress(b, fail)] at a call where the clock gives
    [duration].  The text printed is not modelled, the divisions made for
    it are: [b * 100 / (numBlocks - 1)] always, and
    [... / (b - startBlock)] when the estimate is printed; a division by
    zero has no result, [None]. *)
Definition readProgress (duration b : Z) (fail : bool) (st : ui)
  : option (ui * bool) :=
  if u64 (numBlocks st - 1) =? 0 then None
  else
    let estimate := (0 <? b) && negb (duration =? lastDuration st) in
    if estimate && (u64 (b - startBlock st) =? 0) then None
    else
      let st := if estimate then set_lastDuration duration st else st in
      if fail then
        if firstReadError st =? 0
        then Some (set_firstReadError duration st, true)
        else if duration - firstReadError st >? MAX_READ_ERROR_TIME
             then Some (st, false)
             else Some (st, true)
      else Some (set_firstReadError 0 st, true).

(** The object after the reports [rs], each [(duration, b, fail)]. *)
Definition report (acc : option ui) (r : Z * Z * bool) : option ui :=
  match acc with
  | Some st =>
      match readProgress r.1.1 r.1.2 r.2 st with
      | Some (st', _) => Some st'
      | None => None
      end
  | None => None
  end.

Definition after (rs : list (Z * Z * bool)) (st : ui) : option ui :=
  foldl report (Some st) rs.

End ConsoleUI.

(** * Reading the image back *)

(** The sixteen bytes of partition slot [i] of an image. *)
Definition slot (mbr : list Z) (i : nat) : list Z :=
  take 16 (drop (0x1BE + i * 16) mbr).

(** The slot that [writeEntry] leaves in a zeroed image. *)
Definition entry_image (e : Z * Z * Z) : list Z :=
  slot (Device.writeEntry (replicate Device.MBR_LEN 0) 0 e.1.1 e.1.2 e.2) 0.

(** The [writeEntry] calls of [writePartitionTable], in order, each as
    [(start, end, type)]: the same three guards as in the source. *)
Definition emitted (firstBad lastBad size : Z) : list (Z * Z * Z) :=
  let start := firstBad / Device.MBR_SECTOR_SIZE in
  let end_ := u64 (lastBad + 1) / Device.MBR_SECTOR_SIZE in
  let num := size / Device.MBR_SECTOR_SIZE in
  (if start >? Device.MBR_MIN_PART_SIZE
   then [(0, start, Device.MBR_PTYPE_GOOD)] else []) ++
  (if negb (start =? 0) && negb (end_ =? 0)
   then [(start, end_, Device.MBR_PTYPE_BAD)] else []) ++
  (if end_ <? u64 (num - Device.MBR_MIN_PART_SIZE)
   then [(end_, num, Device.MBR_PTYPE_GOOD)] else []).

(** The design document's CHS packing of an LBA, in its own words:
    cylinder = lba / (63*16), head = (lba / 63) mod 16,
    sector = (lba mod 63) + 1. *)
Definition chs_cylinder (lba : Z) : Z := lba / (63 * 16).
Definition chs_head (lba : Z) : Z := (lba / 63) mod 16.
Definition chs_sector (lba : Z) : Z := lba mod 63 + 1.
Definition chs_packed (lba : Z) : list Z :=
  [ chs_head lba;
    Z.lor (Z.shiftr (Z.land (chs_cylinder lba) 0x300) 2) (chs_sector lba);
    Z.land (chs_cylinder lba) 0xFF ].

(** The fifteen bytes [writeEntry] stores, from byte 1 of the slot on. *)
Definition entry_bytes (start end_ type : Z) : list Z :=
  chs_packed start ++ [type] ++ chs_packed end_ ++
  le_bytes 4 (u32 start) ++ le_bytes 4 (u32 (u64 (end_ - start + 1))).

(** The sector count stored in slot [i]: bytes 0xC..0xF, little-endian. *)
Definition stored_count (mbr : list Z) (i : nat) : Z :=
  le_value (drop 0xC (slot mbr i)).

(** The sixteen bytes of a slot, written out, after the call
    [writeEntry(mbr, i, start, end, type)] on an image that was zero there:
    byte 0 (the boot flag) is not touched, bytes 1 to 15 are stored. *)
Definition entry_slot (e : Z * Z * Z) : list Z :=
  0 :: entry_bytes e.1.1 e.1.2 e.2.

(** The image after the [writeEntry] calls [es], made with
    [partNum = 0, 1, ...], and the boot signature. *)
Definition fill (host : endianness) (serial : Z) (es : list (Z * Z * Z))
  : Device.table :=
  let t :=
    foldl (fun t e => Device.addEntry t e.1.1 e.1.2 e.2)
      (memcpy 0x1B8 (object_bytes host 4 (u32 serial))
         (replicate Device.MBR_LEN 0), 0%nat) es in
  (<[0x1FF%nat := 0xAA]> (<[0x1FE%nat := 0x55]> t.1), t.2).

(** * Reading a run of the engine *)

(** The block indices the loops visit: [count] of them from [b] on. *)
Fixpoint blocks_from (count : nat) (b : Z) : list Z :=
  match count with
  | O => []
  | S count' => b :: blocks_from count' (b + 1)
  end.

(** The [b]-th read of the read pass raised an error. *)
Definition io_fail (w : Check.world) (b : Z) : bool :=
  match Check.w_read_seq w b with
  | Check.ReadError => true
  | Check.ReadData _ => false
  end.

(** Block [b] is recorded as bad: read error or wrong data. *)
Definition bad (host : endianness) (w : Check.world) (b : Z) : bool :=
  match Check.w_read_seq w b with
  | Check.ReadError => true
  | Check.ReadData buf => negb (Check.matches host buf b)
  end.

(** Block [b] is reported from inside the loop. *)
Definition reported (w : Check.world) (b : Z) : bool :=
  (b mod 256 =? 0) || io_fail w b.

(** The report of block [b] is made and answered with false. *)
Definition aborts (w : Check.world) (b : Z) : bool :=
  reported w b && negb (Check.w_readProgress w b (io_fail w b)).

Definition block_events (w : Check.world) (b : Z) : list Check.event :=
  Check.DevRead ::
  (if reported w b then [Check.CbReadProgress b (io_fail w b)] else []).

Definition blocks_events (w : Check.world) (count : nat) (b : Z)
  : list Check.event :=
  concat (map (block_events w) (blocks_from count b)).

(** The bookkeeping of one round of the read loop. *)
Definition scan_step (host : endianness) (w : Check.world) (b : Z)
    (s : Check.scan) : Check.scan :=
  match Check.w_read_seq w b with
  | Check.ReadError => Check.mark b true s
  | Check.ReadData buf =>
      if negb (Check.matches host buf b) then Check.mark b false s
      else Check.set_fail false s
  end.

Definition scan_after (host : endianness) (w : Check.world) (count : nat)
    (b : Z) (s : Check.scan) : Check.scan :=
  foldl (fun s c => scan_step host w c s) s (blocks_from count b).

Definition is_table_call (e : Check.event) : bool :=
  match e with
  | Check.DevWritePartitionTable _ _ _ => true
  | _ => false
  end.

Definition is_block_write (e : Check.event) : bool :=
  match e with
  | Check.DevWrite _ => true
  | _ => false
  end.

(** The events of rounds of the recovery loop that were answered with yes
    and whose reopen failed. *)
Definition retries (keys : list ascii) : list Check.event :=
  concat (map (fun key => [Check.StdinKey key; Check.DevReopen]) keys).

(** A device whose blocks [0 .. k-1] hold their pattern and whose other
    blocks are blank. *)
Definition prefix_written (host : endianness) (k : Z) (off : Z)
  : Check.read_outcome :=
  if off / Check.DATA_BLOCK_SIZE <? k
  then Check.ReadData (Check.pattern host (off / Check.DATA_BLOCK_SIZE))
  else Check.ReadData (replicate Check.blockLen 0).

(** A healthy device of [n] blocks with blocks [0 .. k-1] written, a user
    who resumes and types [keys], a flush that succeeds or not, a reopen
    that fails [fails] times, and a callback answering [progress]. *)
Definition sample_world (host : endianness) (n k : Z) (sync : bool)
    (keys : list ascii) (fails : nat) (progress : Z -> bool -> bool)
  : Check.world :=
  {| Check.w_size := n * Check.DATA_BLOCK_SIZE;
     Check.w_read_at := prefix_written host k;
     Check.w_resumeWrite := true;
     Check.w_write_ok := fun _ => true;
     Check.w_sync_ok := sync;
     Check.w_stdin := keys;
     Check.w_reopen_ok := fun i => (fails <=? i)%nat;
     Check.w_read_seq := fun b => Check.ReadData (Check.pattern host b);
     Check.w_readProgress := progress;
     Check.w_serial := 0;
     Check.w_table_ok := true |}.

(** [Check::read] from the end of the loop on, the loop having left [s]. *)
Definition read_tail (host : endianness) (w : Check.world) (s : Check.scan)
  : Check.M unit :=
  Check.bind
    (if negb (Check.fail s)
     then Check.bind
            (Check.cb_readProgress w (u64 (Check.numBlocks w - 1)) true)
            (fun _ => Check.ret tt)
     else Check.ret tt)
    (fun _ =>
       Check.bind (Check.emit Check.CbReadFinish)
         (fun _ =>
            if Check.firstBad s then
              Check.dev_writePartitionTable host w
                (u64 (Check.firstBadBlock s * Check.DATA_BLOCK_SIZE))
                (u64 (u64 ((Check.lastBadBlock s + 1) * Check.DATA_BLOCK_SIZE)
                      - 1))
                (u64 (Check.numBlocks w * Check.DATA_BLOCK_SIZE))
            else
              Check.dev_writePartitionTable host w 0 0
                (u64 (Check.numBlocks w * Check.DATA_BLOCK_SIZE)))).

(** The events of one [writePartitionTable] call. *)
Definition table_call (host : endianness) (w : Check.world)
    (firstBad lastBad size : Z) : list Check.event :=
  [Check.DevWritePartitionTable firstBad lastBad size;
   Check.DevSeek 0;
   Check.DevWrite
     (Device.writePartitionTable host (Check.w_serial w)
        firstBad lastBad size).1].

(** [sample_world] read back with block 1 failing. *)
Definition with_bad_block (w : Check.world) : Check.world :=
  {| Check.w_size := Check.w_size w;
     Check.w_read_at := Check.w_read_at w;
     Check.w_resumeWrite := Check.w_resumeWrite w;
     Check.w_write_ok := Check.w_write_ok w;
     Check.w_sync_ok := Check.w_sync_ok w;
     Check.w_stdin := Check.w_stdin w;
     Check.w_reopen_ok := Check.w_reopen_ok w;
     Check.w_read_seq :=
       fun b => if b =? 1 then Check.ReadError else Check.w_read_seq w b;
     Check.w_readProgress := Check.w_readProgress w;
     Check.w_serial := Check.w_serial w;
     Check.w_table_ok := Check.w_table_ok w |}.

(** The buffers handed to [dev->write], in order. *)
Definition written_data (tr : list Check.event) : list (list Z) :=
  omap (fun e => match e with Check.DevWrite d => Some d | _ => None end) tr.

(** The start blocks announced with [writeStart]. *)
Definition write_starts (tr : list Check.event) : list Z :=
  omap (fun e => match e with Check.CbWriteStart s _ => Some s | _ => None end)
    tr.

(** Does block [b] of the device read back as its pattern. *)
Definition holds_pattern (host : endianness) (w : Check.world) (b : Z) : bool :=
  match Check.w_read_at w (u64 (b * Check.DATA_BLOCK_SIZE)) with
  | Check.ReadData buf => Check.matches host buf b
  | Check.ReadError => false
  end.

(** The device holds the patterns of blocks [0 .. k-1] and of no other
    block: block [b] reads back as its pattern exactly when [b < k]. *)
Definition prefix_device (host : endianness) (w : Check.world) (k : Z) : Prop :=
  forall b, 0 <= b < Check.numBlocks w ->
    exists buf,
      Check.w_read_at w (b * Check.DATA_BLOCK_SIZE) = Check.ReadData buf /\
      Check.matches host buf b = (b <? k).

(** Where the resume search ends on such a device, and what it reads on
    the way: the recursion of [resume_loop_pos] with the comparison
    [b < k] for the [memcmp]. *)
Fixpoint resume_point_pos (p : positive) (startBlock k : Z) : Z :=
  match p with
  | xH => startBlock
  | xO half | xI half =>
      resume_point_pos half
        (if startBlock <? k then startBlock + Z.pos half
         else startBlock - Z.pos half) k
  end.

Definition resume_point (remainingBlocks k : Z) : Z :=
  match remainingBlocks with
  | Z.pos p => resume_point_pos p remainingBlocks k
  | _ => remainingBlocks
  end.

Fixpoint probe_events_pos (p : positive) (startBlock k : Z)
  : list Check.event :=
  match p with
  | xH => []
  | xO half | xI half =>
      [Check.DevSeek (startBlock * Check.DATA_BLOCK_SIZE); Check.DevRead]
      ++ probe_events_pos half
           (if startBlock <? k then startBlock + Z.pos half
            else startBlock - Z.pos half) k
  end.

Definition probe_events (remainingBlocks k : Z) : list Check.event :=
  match remainingBlocks with
  | Z.pos p => probe_events_pos p remainingBlocks k
  | _ => []
  end.

(** The events of the write loop over [count] blocks from [b] on. *)
Definition write_events (host : endianness) (count : nat) (b : Z)
  : list Check.event :=
  concat
    (map (fun c =>
            (if c mod 256 =? 0 then [Check.CbWriteProgress c] else [])
            ++ [Check.DevWrite (Check.pattern host c)])
       (blocks_from count b)).

(** Is [p] a power of two. *)
Fixpoint pow2_pos (p : positive) : bool :=
  match p with
  | xH => true
  | xO half => pow2_pos half
  | xI _ => false
  end.

(** The LBA a reader of the table takes from three CHS bytes, with the
    geometry of [lba2chs] (16 heads, 63 sectors): the cylinder is the two
    high bits of the second byte before the third byte, the sector the six
    low bits of the second byte. *)
Definition chs_decode (bytes : list Z) : Z :=
  match bytes with
  | [b0; b1; b2] =>
      let cylinder := Z.lor (Z.shiftl (Z.land b1 0xC0) 2) b2 in
      let sector := Z.land b1 0x3F in
      (cylinder * 16 + b0) * 63 + (sector - 1)
  | _ => 0
  end.

(** The blocks announced with [writeProgress], in order. *)
Definition write_progress (tr : list Check.event) : list Z :=
  omap (fun e => match e with Check.CbWriteProgress b => Some b | _ => None end)
    tr.

(** An event of the resume search on a device of [n] blocks: a read, or a
    seek to the start of one of the blocks [1 .. n-1]. *)
Definition probe_within (n : Z) (e : Check.event) : Prop :=
  match e with
  | Check.DevSeek off =>
      off mod Check.DATA_BLOCK_SIZE = 0 /\
      Check.DATA_BLOCK_SIZE <= off < n * Check.DATA_BLOCK_SIZE
  | Check.DevRead => True
  | _ => False
  end.

(** Every read of the device at the start of a block succeeds. *)
Definition reads_succeed (w : Check.world) : Prop :=
  forall b, 0 <= b < Check.numBlocks w ->
    Check.w_read_at w (b * Check.DATA_BLOCK_SIZE) <> Check.ReadError.

(** What [Check::write] does before its loop when the pass starts at block
    0, [buf] being what the first read returned. *)
Definition fresh_head (host : endianness) (w : Check.world) (buf : list Z)
  : list Check.event :=
  [Check.DevSeek 0; Check.DevRead]
    ++ (if Check.matches host buf 0 then [Check.CbResumeWrite] else [])
    ++ [Check.DevSeek 0; Check.CbWriteStart 0 (Check.numBlocks w)].

(** A world with another answer to [resumeWrite] and other write results. *)
Definition with_writes (resume : bool) (write_ok : Z -> bool)
    (w : Check.world) : Check.world :=
  {| Check.w_size := Check.w_size w;
     Check.w_read_at := Check.w_read_at w;
     Check.w_resumeWrite := resume;
     Check.w_write_ok := write_ok;
     Check.w_sync_ok := Check.w_sync_ok w;
     Check.w_stdin := Check.w_stdin w;
     Check.w_reopen_ok := Check.w_reopen_ok w;
     Check.w_read_seq := Check.w_read_seq w;
     Check.w_readProgress := Check.w_readProgress w;
     Check.w_serial := Check.w_serial w;
     Check.w_table_ok := Check.w_table_ok w |}.

(** * Machine arithmetic *)

Lemma u32_land (x m : Z) : 0 <= m < 2 ^ 32 -> Z.land (u32 x) m = Z.land x m.
Proof.
  intros Hm. unfold u32. rewrite <- Z.land_ones by lia.
  rewrite <- Z.land_assoc. f_equal.
  rewrite Z.land_comm, Z.land_ones by lia. apply Z.mod_small. lia.
Qed.

Lemma u8_small (x : Z) : 0 <= x < 256 -> u8 x = x.
Proof. intros. unfold u8. apply Z.mod_small. lia. Qed.

Lemma u32_small (x : Z) : 0 <= x < 2 ^ 32 -> u32 x = x.
Proof. intros. unfold u32. apply Z.mod_small. lia. Qed.

Lemma u64_small (x : Z) : 0 <= x < 2 ^ 64 -> u64 x = x.
Proof. intros. unfold u64. apply Z.mod_small. lia. Qed.

Lemma u64_range (x : Z) : 0 <= u64 x < 2 ^ 64.
Proof. unfold u64. apply Z.mod_pos_bound. lia. Qed.

Lemma land_255_range (x : Z) : 0 <= Z.land x 0xFF < 256.
Proof.
  change 0xFF with (Z.ones 8). rewrite Z.land_ones by lia.
  apply Z.mod_pos_bound. lia.
Qed.

Lemma land_255_mod (x : Z) : Z.land x 0xFF = x mod 256.
Proof. change 0xFF with (Z.ones 8). rewrite Z.land_ones by lia. reflexivity. Qed.

Lemma chs_byte1_range (c s : Z) :
  0 <= s < 64 -> 0 <= Z.lor (Z.shiftr (Z.land c 0x300) 2) s < 256.
Proof.
  intros Hs.
  assert (H : Z.lor (Z.shiftr (Z.land c 0x300) 2) s
              = Z.land (Z.lor (Z.shiftr (Z.land c 0x300) 2) s) 0xFF).
  { rewrite Z.land_lor_distr_l. f_equal.
    - rewrite Z.shiftr_land, <- Z.land_assoc. reflexivity.
    - rewrite land_255_mod. symmetry. apply Z.mod_small. lia. }
  rewrite H. apply land_255_range.
Qed.

Lemma le_bytes_length (n : nat) (v : Z) : length (le_bytes n v) = n.
Proof. revert v. induction n as [|n IH]; intros v; simpl; auto. Qed.

Lemma le_value_bytes (n : nat) (v : Z) :
  le_value (le_bytes n v) = v mod 256 ^ Z.of_nat n.
Proof.
  revert v. induction n as [|n IH]; intros v.
  - simpl. symmetry. apply Z.mod_1_r.
  - cbn [le_bytes le_value]. rewrite IH.
    replace (256 ^ Z.of_nat (S n)) with (256 * 256 ^ Z.of_nat n)
      by (rewrite Nat2Z.inj_succ, Z.pow_succ_r by lia; reflexivity).
    rewrite Z.rem_mul_r by lia. lia.
Qed.

Lemma object_bytes_length (host : endianness) (n : nat) (v : Z) :
  length (object_bytes host n v) = n.
Proof.
  destruct host; simpl; rewrite ?length_reverse; apply le_bytes_length.
Qed.

Lemma object_bytes_inj (host : endianness) (v1 v2 : Z) :
  0 <= v1 < 2 ^ 64 -> 0 <= v2 < 2 ^ 64 ->
  object_bytes host 8 v1 = object_bytes host 8 v2 -> v1 = v2.
Proof.
  intros H1 H2 E.
  assert (E' : le_bytes 8 v1 = le_bytes 8 v2).
  { destruct host; simpl in E; [exact E|].
    apply (f_equal reverse) in E. rewrite !reverse_involutive in E. exact E. }
  apply (f_equal le_value) in E'. rewrite !le_value_bytes in E'.
  change (256 ^ Z.of_nat 8) with (2 ^ 64) in E'.
  rewrite !Z.mod_small in E' by lia. exact E'.
Qed.

(** * The stores of device.cpp as block updates *)

Lemma lba2chs_spec (lba : Z) (p : nat) (buf : list Z) :
  Device.lba2chs lba p buf = list_inserts p (chs_packed lba) buf.
Proof.
  unfold Device.lba2chs, chs_packed, chs_cylinder, chs_head, chs_sector,
    Device.CHS_NUMSECTORS, Device.CHS_NUMHEADS.
  cbn [list_inserts].
  assert (Hh : 0 <= (lba / 63) mod 16 < 16) by (apply Z.mod_pos_bound; lia).
  assert (Hs : 0 <= lba mod 63 < 63) by (apply Z.mod_pos_bound; lia).
  rewrite !u32_land by lia.
  rewrite (u32_small ((lba / 63) mod 16)) by lia.
  rewrite (u32_small (lba mod 63 + 1)) by lia.
  rewrite (u8_small ((lba / 63) mod 16)) by lia.
  rewrite (u8_small (Z.lor _ _)) by (apply chs_byte1_range; lia).
  rewrite (u8_small (Z.land _ 0xFF)) by apply land_255_range.
  replace (p + 1)%nat with (S p) by lia.
  replace (p + 2)%nat with (S (S p)) by lia.
  rewrite (list_insert_insert_ne _ (S (S p)) (S p)) by lia.
  rewrite (list_insert_insert_ne _ (S (S p)) p) by lia.
  rewrite (list_insert_insert_ne _ (S p) p) by lia.
  reflexivity.
Qed.

Lemma store32le_spec (p : nat) (v : Z) (buf : list Z) :
  Device.store32le p v buf = list_inserts p (le_bytes 4 (u32 v)) buf.
Proof.
  unfold Device.store32le. cbn [le_bytes list_inserts].
  rewrite !land_255_mod, !Z.shiftr_div_pow2 by lia.
  rewrite !Z.div_div by lia.
  change (2 ^ 8) with 256. change (2 ^ 16) with (256 * 256).
  change (2 ^ 24) with (256 * 256 * 256).
  replace (p + 1)%nat with (S p) by lia.
  replace (p + 2)%nat with (S (S p)) by lia.
  replace (p + 3)%nat with (S (S (S p))) by lia.
  rewrite (list_insert_insert_ne _ (S (S (S p))) (S (S p))) by lia.
  rewrite (list_insert_insert_ne _ (S (S (S p))) (S p)) by lia.
  rewrite (list_insert_insert_ne _ (S (S (S p))) p) by lia.
  rewrite (list_insert_insert_ne _ (S (S p)) (S p)) by lia.
  rewrite (list_insert_insert_ne _ (S (S p)) p) by lia.
  rewrite (list_insert_insert_ne _ (S p) p) by lia.
  reflexivity.
Qed.

Lemma writeEntry_spec (mbr : list Z) (i : nat) (s e t : Z) :
  Device.writeEntry mbr i s e t
  = list_inserts (0x1BE + i * 16 + 1) (entry_bytes s e t) mbr.
Proof.
  unfold Device.writeEntry, entry_bytes.
  rewrite !lba2chs_spec, !store32le_spec.
  set (p := (0x1BE + i * 16)%nat).
  rewrite !list_inserts_app_l.
  change (length (chs_packed s)) with 3%nat.
  change (length (chs_packed e)) with 3%nat.
  change (length (le_bytes 4 (u32 s))) with 4%nat.
  change (length [t]) with 1%nat.
  change (list_inserts (3 + (p + 1)) [t] ?l) with (<[(3 + (p + 1))%nat := t]> l).
  rewrite (list_insert_inserts_lt _ (p + 4)%nat) by lia.
  replace (3 + (p + 1))%nat with (p + 4)%nat by lia.
  replace (1 + (p + 4))%nat with (p + 5)%nat by lia.
  replace (3 + (p + 5))%nat with (p + 8)%nat by lia.
  replace (4 + (p + 8))%nat with (p + 12)%nat by lia.
  reflexivity.
Qed.

Lemma entry_bytes_shape (s e t : Z) :
  exists a1 a2 a3 a4 a5 a6 a7 a8 a9 a10 a11 a12 a13 a14 a15,
    entry_bytes s e t
    = [a1; a2; a3; a4; a5; a6; a7; a8; a9; a10; a11; a12; a13; a14; a15].
Proof.
  unfold entry_bytes, chs_packed. cbn [app le_bytes]. repeat eexists.
Qed.

Lemma object_bytes4_shape (host : endianness) (v : Z) :
  exists a1 a2 a3 a4, object_bytes host 4 v = [a1; a2; a3; a4].
Proof. destruct host; cbn; repeat eexists. Qed.

Lemma entry_image_bytes (e : Z * Z * Z) :
  entry_image e = 0 :: entry_bytes e.1.1 e.1.2 e.2.
Proof.
  unfold entry_image. rewrite writeEntry_spec.
  destruct (entry_bytes_shape e.1.1 e.1.2 e.2)
    as (a1&a2&a3&a4&a5&a6&a7&a8&a9&a10&a11&a12&a13&a14&a15&->).
  reflexivity.
Qed.

Lemma writePartitionTable_fill (host : endianness) (serial fb lb sz : Z) :
  Device.writePartitionTable host serial fb lb sz
  = fill host serial (emitted fb lb sz).
Proof.
  unfold Device.writePartitionTable, fill, emitted.
  destruct (_ >? _); destruct (negb _ && negb _); destruct (_ <? _);
    reflexivity.
Qed.

Lemma emitted_length (fb lb sz : Z) : (length (emitted fb lb sz) <= 3)%nat.
Proof.
  unfold emitted.
  destruct (_ >? _); destruct (negb _ && negb _); destruct (_ <? _);
    simpl; lia.
Qed.

Ltac name_entry_bytes :=
  repeat match goal with
         | |- context [ entry_bytes ?s ?e ?t ] =>
             let H := fresh in
             destruct (entry_bytes_shape s e t)
               as (?&?&?&?&?&?&?&?&?&?&?&?&?&?&?&H);
             rewrite !H; clear H
         end.

(** Layout of an image with at most three entries. *)
Lemma fill_layout (host : endianness) (serial : Z) (es : list (Z * Z * Z)) :
  (length es <= 3)%nat ->
  length (fill host serial es).1 = 512%nat /\
  (fill host serial es).1 !! 0x1FE%nat = Some 0x55 /\
  (fill host serial es).1 !! 0x1FF%nat = Some 0xAA /\
  (fill host serial es).2 = length es /\
  map (slot (fill host serial es).1) [0; 1; 2; 3]%nat
  = map entry_image es ++ replicate (4 - length es) (replicate 16 0) /\
  take 4 (drop 0x1B8 (fill host serial es).1) = object_bytes host 4 (u32 serial).
Proof.
  intros Hlen. unfold fill.
  destruct (object_bytes4_shape host (u32 serial)) as (s1&s2&s3&s4&->).
  destruct es as [|[[b1 e1] t1] [|[[b2 e2] t2] [|[[b3 e3] t3] [|? ?]]]];
    [| | | |simpl in Hlen; lia];
    cbn [foldl Device.addEntry fst snd map length];
    rewrite ?entry_image_bytes; cbn [fst snd];
    rewrite ?writeEntry_spec; name_entry_bytes;
    repeat split; reflexivity.
Qed.


Lemma entry_image_chs (s e t : Z) :
  take 3 (drop 1 (entry_image (s, e, t))) = chs_packed s /\
  take 3 (drop 5 (entry_image (s, e, t))) = chs_packed e.
Proof. rewrite entry_image_bytes. split; reflexivity. Qed.

Lemma entry_image_count (s e t : Z) :
  le_value (drop 0xC (entry_image (s, e, t))) = u32 (u64 (e - s + 1)).
Proof.
  rewrite entry_image_bytes.
  change (drop 12 (0 :: entry_bytes (s, e, t).1.1 (s, e, t).1.2 (s, e, t).2))
    with (le_bytes 4 (u32 (u64 (e - s + 1)))).
  rewrite le_value_bytes. change (256 ^ Z.of_nat 4) with (2 ^ 32).
  unfold u32. apply Z.mod_mod. lia.
Qed.

Lemma list4_inj {A} (a b c d a' b' c' d' : A) :
  [a; b; c; d] = [a'; b'; c'; d'] -> a = a' /\ b = b' /\ c = c' /\ d = d'.
Proof. intros H. injection H. auto. Qed.

Lemma writePartitionTable_layout (host : endianness) (serial fb lb sz : Z) :
  let t := Device.writePartitionTable host serial fb lb sz in
  length t.1 = 512%nat /\
  t.1 !! 0x1FE%nat = Some 0x55 /\
  t.1 !! 0x1FF%nat = Some 0xAA /\
  t.2 = length (emitted fb lb sz) /\
  map (slot t.1) [0; 1; 2; 3]%nat
  = map entry_image (emitted fb lb sz)
    ++ replicate (4 - length (emitted fb lb sz)) (replicate 16 0) /\
  take 4 (drop 0x1B8 t.1) = object_bytes host 4 (u32 serial).
Proof.
  cbv zeta. rewrite writePartitionTable_fill.
  apply fill_layout, emitted_length.
Qed.

Lemma u32_u64 (x : Z) : u32 (u64 x) = u32 x.
Proof.
  unfold u32, u64. apply Z.mod_mod_divide.
  exists (2 ^ 32). reflexivity.
Qed.

Lemma entry_slot_image (e : Z * Z * Z) : entry_image e = entry_slot e.
Proof. apply entry_image_bytes. Qed.

Lemma entry_slot_count (s e t : Z) :
  le_value (drop 0xC (entry_slot (s, e, t))) = u32 (e - s + 1).
Proof.
  rewrite <- entry_slot_image, entry_image_count. apply u32_u64.
Qed.

(** The slots of the image, one by one: slot [i] holds the bytes of the
    [i]-th [writeEntry] call, and zeros when there was no such call. *)
Lemma writePartitionTable_slots (host : endianness) (serial fb lb sz : Z) :
  let t := Device.writePartitionTable host serial fb lb sz in
  t.2 = length (emitted fb lb sz) /\
  map (slot t.1) [0; 1; 2; 3]%nat
  = map entry_slot (emitted fb lb sz)
    ++ replicate (4 - length (emitted fb lb sz)) (replicate 16 0).
Proof.
  destruct (writePartitionTable_layout host serial fb lb sz)
    as (_&_&_&Hn&Hs&_).
  cbv zeta. split; [exact Hn|].
  rewrite Hs. f_equal. apply map_ext. intros e. apply entry_slot_image.
Qed.

Lemma slots_pointwise (mbr : list Z) (imgs : list (list Z)) :
  (length imgs <= 4)%nat ->
  map (slot mbr) [0; 1; 2; 3]%nat
  = imgs ++ replicate (4 - length imgs) (replicate 16 0) ->
  (forall (i : nat) (img : list Z),
     imgs !! i = Some img -> take 16 (drop (0x1BE + 16 * i) mbr) = img) /\
  (forall i : nat, (length imgs <= i < 4)%nat ->
     take 16 (drop (0x1BE + 16 * i) mbr) = replicate 16 0).
Proof.
  intros Hlen Hs.
  assert (Hat : forall i : nat, (i < 4)%nat ->
            (imgs ++ replicate (4 - length imgs) (replicate 16 0)) !! i
            = Some (take 16 (drop (0x1BE + 16 * i) mbr))).
  { intros i Hi. rewrite <- Hs, list_lookup_fmap.
    replace (16 * i)%nat with (i * 16)%nat by lia.
    destruct i as [|[|[|[|i]]]]; [reflexivity..|lia]. }
  split.
  - intros i img Hi.
    pose proof (lookup_lt_Some _ _ _ Hi) as Hlt.
    specialize (Hat i ltac:(lia)).
    rewrite lookup_app_l, Hi in Hat by lia. congruence.
  - intros i Hi. specialize (Hat i ltac:(lia)).
    rewrite lookup_app_r, lookup_replicate_2 in Hat by lia. congruence.
Qed.

Lemma u32_succ_ne (x : Z) : u32 (x + 1) <> u32 x.
Proof.
  unfold u32. change (2 ^ 32) with 4294967296.
  Z.div_mod_to_equations. lia.
Qed.

(** The calls made for the all-good arguments: none when the device has
    exactly [MBR_MIN_PART_SIZE] sectors, one otherwise. *)
Lemma emitted_all_good (size : Z) :
  0 <= size < 2 ^ 64 ->
  emitted 0 0 size
  = if size / Device.MBR_SECTOR_SIZE =? Device.MBR_MIN_PART_SIZE then []
    else [(0, size / Device.MBR_SECTOR_SIZE, Device.MBR_PTYPE_GOOD)].
Proof.
  intros Hsize. unfold emitted.
  change (0 / Device.MBR_SECTOR_SIZE) with 0.
  change (u64 (0 + 1) / Device.MBR_SECTOR_SIZE) with 0.
  change (0 >? Device.MBR_MIN_PART_SIZE) with false.
  change (negb (0 =? 0) && negb (0 =? 0)) with false.
  cbn [app].
  assert (Hnum : 0 <= size / Device.MBR_SECTOR_SIZE < 2 ^ 64).
  { unfold Device.MBR_SECTOR_SIZE.
    change (2 ^ 64) with 18446744073709551616 in *.
    Z.div_mod_to_equations. lia. }
  set (num := size / Device.MBR_SECTOR_SIZE) in *.
  change Device.MBR_MIN_PART_SIZE with 32768.
  change (2 ^ 64) with 18446744073709551616 in *.
  destruct (Z.eqb_spec num 32768) as [->|Hne]; [reflexivity|].
  assert (Hlt : (0 <? u64 (num - 32768)) = true).
  { apply Z.ltb_lt. unfold u64. change (2 ^ 64) with 18446744073709551616.
    Z.div_mod_to_equations. lia. }
  rewrite Hlt. reflexivity.
Qed.

(** The image after the all-good call on a device whose number of sectors
    is not [MBR_MIN_PART_SIZE]. *)
Lemma all_good_table (host : endianness) (serial size : Z) :
  0 <= size < 2 ^ 64 ->
  size / Device.MBR_SECTOR_SIZE <> Device.MBR_MIN_PART_SIZE ->
  let num := size / Device.MBR_SECTOR_SIZE in
  let t := Device.writePartitionTable host serial 0 0 size in
  t.2 = 1%nat /\
  map (slot t.1) [0; 1; 2; 3]%nat
  = [0 :: entry_bytes 0 num Device.MBR_PTYPE_GOOD;
     replicate 16 0; replicate 16 0; replicate 16 0] /\
  stored_count t.1 0 = u32 (num + 1).
Proof.
  intros Hsize Hnum. cbv zeta.
  destruct (writePartitionTable_slots host serial 0 0 size) as (Hn&Hs).
  rewrite (emitted_all_good size Hsize) in Hn, Hs.
  destruct (Z.eqb_spec (size / Device.MBR_SECTOR_SIZE)
              Device.MBR_MIN_PART_SIZE) as [E|_]; [contradiction|].
  cbn [map length app Nat.sub replicate] in Hn, Hs.
  split; [exact Hn|]. split; [exact Hs|].
  apply list4_inj in Hs. destruct Hs as (H0&_).
  unfold stored_count. rewrite H0.
  rewrite (entry_slot_count 0 (size / Device.MBR_SECTOR_SIZE)
             Device.MBR_PTYPE_GOOD).
  rewrite Z.sub_0_r. reflexivity.
Qed.

(** * The partition-table codec *)

(** C6.  For every LBA, the three bytes [lba2chs] stores are
    head = (lba / 63) mod 16, then ((cylinder & 0x300) >> 2) | sector with
    sector = lba mod 63 + 1, then cylinder & 0xFF, with
    cylinder = lba / (63 * 16); the conversions to [unsigned int] and
    [uint8_t] lose nothing.  [writeEntry] puts the encoding of the start at
    bytes 1-3 of the slot and that of the end at bytes 5-7.  LBA 0 gives
    head 0, sector 1, cylinder 0; LBA 63 gives head 1, sector 1,
    cylinder 0. *)
Theorem lba2chs_encoding (lba : Z) (chs : nat) (buf : list Z) (s e t : Z) :
  Device.lba2chs lba chs buf
  = <[chs := (lba / 63) mod 16]>
      (<[S chs :=
           Z.lor (Z.shiftr (Z.land (lba / (63 * 16)) 0x300) 2) (lba mod 63 + 1)]>
         (<[S (S chs) := Z.land (lba / (63 * 16)) 0xFF]> buf)) /\
  take 3 (drop 1 (entry_image (s, e, t))) = Device.lba2chs s 0 [0; 0; 0] /\
  take 3 (drop 5 (entry_image (s, e, t))) = Device.lba2chs e 0 [0; 0; 0] /\
  (chs_head 0 = 0 /\ chs_sector 0 = 1 /\ chs_cylinder 0 = 0) /\
  Device.lba2chs 0 0 [0; 0; 0] = [0; 1; 0] /\
  (chs_head 63 = 1 /\ chs_sector 63 = 1 /\ chs_cylinder 63 = 0) /\
  Device.lba2chs 63 0 [0; 0; 0] = [1; 1; 0].
Proof.
  split; [apply lba2chs_spec|].
  rewrite !lba2chs_spec.
  destruct (entry_image_chs s e t) as [-> ->].
  repeat split; reflexivity.
Qed.

(** C1, evaluated on the code.  The count that [writeEntry] stores for the
    sector range it is given is [end - start + 1] (reduced to 32 bits), one
    more than [end - start].  With a device of 1,073,741,824 bytes,
    firstBad = 536,870,912 and lastBad = 536,871,423, the three calls are
    good [0, 1048576), bad [1048576, 1048577), good [1048577, 2097152), and
    the counts stored are 1048577, 2 and 1048576: the first partition runs
    into the bad sector, the bad entry has count 2 instead of 1, and the
    last partition ends one sector after the device. *)
Theorem writeEntry_count_is_one_more (host : endianness) (serial : Z) :
  (forall s e t : Z,
     stored_count (Device.writeEntry (replicate Device.MBR_LEN 0) 0 s e t) 0
     = u32 (u64 (e - s + 1))) /\
  let t :=
    Device.writePartitionTable host serial 536870912 536871423 1073741824 in
  emitted 536870912 536871423 1073741824
  = [(0, 1048576, 0x0C); (1048576, 1048577, 0xFF); (1048577, 2097152, 0x0C)] /\
  stored_count t.1 0 = 1048577 /\
  stored_count t.1 1 = 2 /\
  stored_count t.1 2 = 1048576 /\
  stored_count t.1 1 <> 1048577 - 1048576.
Proof.
  split.
  - intros s e t. apply (entry_image_count s e t).
  - cbv zeta.
    destruct (writePartitionTable_layout host serial
                536870912 536871423 1073741824) as (_&_&_&_&Hs&_).
    assert (He : emitted 536870912 536871423 1073741824
                 = [(0, 1048576, 0x0C); (1048576, 1048577, 0xFF);
                    (1048577, 2097152, 0x0C)]) by reflexivity.
    rewrite He in Hs. cbn [map length app Nat.sub replicate] in Hs.
    apply list4_inj in Hs. destruct Hs as (H0&H1&H2&_).
    unfold stored_count. rewrite H0, H1, H2, !entry_image_count.
    repeat split; try reflexivity. vm_compute. discriminate.
Qed.

(** C5.  Whatever the inputs, the image [writePartitionTable] builds has 512
    bytes with 0x55 at 0x1FE and 0xAA at 0x1FF.  [partNum] ends as the number
    of [writeEntry] calls made, at most 3.  The i-th call (counted from 0),
    with arguments (start, end, type), leaves at offset 0x1BE + 16 i the
    sixteen bytes 0 (the boot flag), the CHS of start, the type, the CHS of
    end, start and end - start + 1, both little-endian on 32 bits.  Every
    slot from [partNum] on, the fourth (at 0x1EE) always, is all zero. *)
Theorem writePartitionTable_image (host : endianness) (serial fb lb sz : Z) :
  let t := Device.writePartitionTable host serial fb lb sz in
  length t.1 = 512%nat /\
  t.1 !! 0x1FE%nat = Some 0x55 /\
  t.1 !! 0x1FF%nat = Some 0xAA /\
  t.2 = length (emitted fb lb sz) /\
  (t.2 <= 3)%nat /\
  map (slot t.1) [0; 1; 2; 3]%nat
  = map (fun e => 0 :: entry_bytes e.1.1 e.1.2 e.2) (emitted fb lb sz)
    ++ replicate (4 - t.2) (replicate 16 0) /\
  (forall (i : nat) (s e ty : Z),
     emitted fb lb sz !! i = Some (s, e, ty) ->
     take 16 (drop (0x1BE + 16 * i) t.1) = 0 :: entry_bytes s e ty) /\
  (forall i : nat, (t.2 <= i < 4)%nat ->
     take 16 (drop (0x1BE + 16 * i) t.1) = replicate 16 0) /\
  take 16 (drop 0x1EE t.1) = replicate 16 0.
Proof.
  destruct (writePartitionTable_layout host serial fb lb sz)
    as (Hl&H5&Ha&_).
  destruct (writePartitionTable_slots host serial fb lb sz) as (Hn&Hs).
  pose proof (emitted_length fb lb sz) as Hle.
  cbv zeta. rewrite Hn.
  destruct (slots_pointwise
              (Device.writePartitionTable host serial fb lb sz).1
              (map entry_slot (emitted fb lb sz))) as (Hat&Hfree).
  { rewrite length_map. lia. }
  { rewrite length_map. exact Hs. }
  rewrite length_map in Hfree.
  split; [exact Hl|]. split; [exact H5|]. split; [exact Ha|].
  split; [reflexivity|]. split; [exact Hle|].
  split; [exact Hs|]. split; [|split].
  - intros i s e ty Hi. apply Hat.
    rewrite list_lookup_fmap, Hi. reflexivity.
  - exact Hfree.
  - apply (Hfree 3%nat). lia.
Qed.

Lemma writePartitionTable_image_witness :
  take 16 (drop 0x1CE
             (Device.writePartitionTable LittleEndian 0
                536870912 536871423 1073741824).1)
  = 0 :: entry_bytes 1048576 1048577 0xFF.
Proof.
  destruct (writePartitionTable_image LittleEndian 0
              536870912 536871423 1073741824) as (_&_&_&_&_&_&H&_).
  apply (H 1%nat). reflexivity.
Defined.

(** C7, evaluated on the code.  With the all-good sentinel firstBad = 0,
    lastBad = 0 on a device of [num = size / 512] sectors, [num] above the
    32768 sectors of [MBR_MIN_PART_SIZE], the first two guards are false and
    the third is true: the only call is [writeEntry(mbr, 0, 0, num, 0x0C)].
    [partNum] ends as 1, slot 0 holds type 0x0C and LBA start 0, slots 1 to
    3 stay zero.  The sector count stored in slot 0 is [num + 1] (reduced to
    32 bits) and not [num]: the entry runs from sector 0 to sector [num],
    one sector more than the device has.  For the device of 1,073,741,824
    bytes the count stored is 2,097,153, where the device has 2,097,152
    sectors. *)
Theorem all_good_sentinel (host : endianness) (serial size : Z) :
  0 <= size < 2 ^ 64 ->
  Device.MBR_MIN_PART_SIZE < size / Device.MBR_SECTOR_SIZE ->
  let num := size / Device.MBR_SECTOR_SIZE in
  let t := Device.writePartitionTable host serial 0 0 size in
  emitted 0 0 size = [(0, num, Device.MBR_PTYPE_GOOD)] /\
  t.2 = 1%nat /\
  map (slot t.1) [0; 1; 2; 3]%nat
  = [0 :: entry_bytes 0 num Device.MBR_PTYPE_GOOD;
     replicate 16 0; replicate 16 0; replicate 16 0] /\
  slot t.1 0 !! 4%nat = Some 0x0C /\
  le_value (take 4 (drop 8 (slot t.1 0))) = 0 /\
  stored_count t.1 0 = u32 (num + 1) /\
  stored_count t.1 0 <> u32 num /\
  stored_count (Device.writePartitionTable host serial 0 0 1073741824).1 0
  = 2097153.
Proof.
  intros Hsize Hnum. cbv zeta.
  assert (Hne : size / Device.MBR_SECTOR_SIZE <> Device.MBR_MIN_PART_SIZE)
    by lia.
  destruct (all_good_table host serial size Hsize Hne) as (Hn&Hs&Hc).
  split.
  { rewrite (emitted_all_good size Hsize).
    destruct (Z.eqb_spec (size / Device.MBR_SECTOR_SIZE)
                Device.MBR_MIN_PART_SIZE) as [E|_]; [contradiction|].
    reflexivity. }
  split; [exact Hn|]. split; [exact Hs|].
  apply list4_inj in Hs. destruct Hs as (H0&_).
  split; [rewrite H0; reflexivity|].
  split.
  { rewrite H0.
    change (take 4 (drop 8 (0 :: entry_bytes 0 (size / Device.MBR_SECTOR_SIZE)
                                   Device.MBR_PTYPE_GOOD)))
      with (le_bytes 4 (u32 0)).
    reflexivity. }
  split; [exact Hc|]. split; [rewrite Hc; apply u32_succ_ne|].
  destruct (all_good_table host serial 1073741824) as (_&_&Hc').
  - lia.
  - discriminate.
  - rewrite Hc'. reflexivity.
Qed.

Lemma all_good_sentinel_witness :
  (Device.writePartitionTable LittleEndian 0 0 0 1073741824).2 = 1%nat /\
  stored_count (Device.writePartitionTable LittleEndian 0 0 0 1073741824).1 0
  = 2097153 /\
  2097153 <> 1073741824 / Device.MBR_SECTOR_SIZE.
Proof.
  destruct (all_good_sentinel LittleEndian 0 1073741824)
    as (_&Hn&_&_&_&_&_&Hc).
  - lia.
  - reflexivity.
  - split; [exact Hn|]. split; [exact Hc|]. discriminate.
Defined.



(** * The pattern codec *)

Lemma prepareBuf_loop_tiles (src : list Z) :
  length src = 8%nat ->
  forall (rounds k : nat) (pre rest : list Z),
    length rest = (8 * k)%nat -> (k <= rounds)%nat ->
    Check.prepareBuf_loop rounds (length pre) (length pre + 8 * k) src
      (pre ++ rest)
    = pre ++ concat (replicate k src).
Proof.
  intros Hsrc. induction rounds as [|rounds IH]; intros k pre rest Hrest Hk.
  - assert (k = 0%nat) by lia. subst k.
    destruct rest; [reflexivity|discriminate].
  - cbn [Check.prepareBuf_loop]. destruct k as [|k].
    + replace (length pre + 8 * 0)%nat with (length pre) by lia.
      rewrite Nat.ltb_irrefl. destruct rest; [reflexivity|discriminate].
    + assert (Hlt : (length pre <? length pre + 8 * S k)%nat = true)
        by (apply Nat.ltb_lt; lia).
      rewrite Hlt. unfold memcpy, Check.sizeof_block_t.
      rewrite <- (take_drop 8 rest).
      replace (length pre) with (length pre + 0)%nat at 3 by lia.
      rewrite list_inserts_app_r.
      rewrite list_inserts_0_r by (rewrite length_take; lia).
      replace (length pre + 8 * S k)%nat
        with (length (pre ++ src) + 8 * k)%nat by (rewrite length_app; lia).
      replace (length pre + 8)%nat with (length (pre ++ src))
        by (rewrite length_app; lia).
      rewrite (app_assoc pre src).
      rewrite IH by (rewrite ?length_drop; lia).
      cbn [replicate concat]. rewrite <- app_assoc. reflexivity.
Qed.

Lemma prepareBuf_tiles (host : endianness) (buf : list Z) (b : Z) :
  length buf = Check.blockLen ->
  Check.prepareBuf host buf Check.blockLen b
  = concat (replicate 512 (object_bytes host 8 (u64 (b + 1)))).
Proof.
  intros Hbuf. unfold Check.prepareBuf.
  pose proof (prepareBuf_loop_tiles
                (object_bytes host Check.sizeof_block_t (u64 (b + 1)))
                (object_bytes_length _ _ _)
                Check.blockLen 512 [] buf) as H.
  cbn [length app Nat.add] in H. apply H.
  - rewrite Hbuf. reflexivity.
  - unfold Check.blockLen. lia.
Qed.

Lemma pattern_tiles (host : endianness) (b : Z) :
  Check.pattern host b
  = concat (replicate 512 (object_bytes host 8 (u64 (b + 1)))).
Proof.
  exact (prepareBuf_tiles host (replicate Check.blockLen 0) b
           (length_replicate _ _)).
Qed.

Lemma tiles_length (src : list Z) (k : nat) :
  length src = 8%nat -> length (concat (replicate k src)) = (8 * k)%nat.
Proof.
  intros Hs. induction k as [|k IH]; [reflexivity|].
  cbn [replicate concat]. rewrite length_app, IH. lia.
Qed.

Lemma pattern_length (host : endianness) (b : Z) :
  length (Check.pattern host b) = Check.blockLen.
Proof.
  rewrite pattern_tiles, tiles_length by apply object_bytes_length.
  reflexivity.
Qed.

Lemma pattern_inj (host : endianness) (b1 b2 : Z) :
  Check.pattern host b1 = Check.pattern host b2 -> u64 (b1 + 1) = u64 (b2 + 1).
Proof.
  rewrite !pattern_tiles. intros E.
  apply (f_equal (take 8)) in E.
  change (replicate 512 ?x) with (x :: replicate 511 x) in E.
  cbn [concat] in E.
  rewrite !take_app_length' in E by (symmetry; apply object_bytes_length).
  apply object_bytes_inj in E; auto using u64_range.
Qed.

Lemma matches_pattern (host : endianness) (b b' : Z) :
  Check.matches host (Check.pattern host b) b'
  = bool_decide (u64 (b + 1) = u64 (b' + 1)).
Proof.
  unfold Check.matches.
  rewrite take_ge by (rewrite pattern_length; lia).
  apply bool_decide_ext. split; [apply pattern_inj|].
  intros E. rewrite !pattern_tiles, E. reflexivity.
Qed.

Lemma u64_succ_inj (b1 b2 : Z) :
  0 <= b1 < 2 ^ 64 -> 0 <= b2 < 2 ^ 64 ->
  u64 (b1 + 1) = u64 (b2 + 1) -> b1 = b2.
Proof.
  unfold u64. change (2 ^ 64) with 18446744073709551616.
  intros H1 H2 E. Z.div_mod_to_equations. lia.
Qed.

(** C3.  [prepareBuf] on a 4096-byte buffer leaves 512 copies of the eight
    bytes of [blockNum + 1], whatever the buffer held before: two
    evaluations agree.  A generated block matches its own index.  Two block
    indices whose successors differ as 64-bit values, so any two distinct
    indices of the 64-bit range, have different patterns, and neither
    pattern matches the other index. *)
Theorem pattern_deterministic
    (host : endianness) (b1 b2 : Z) (buf buf' : list Z) :
  length buf = Check.blockLen -> length buf' = Check.blockLen ->
  0 <= b1 < 2 ^ 64 -> 0 <= b2 < 2 ^ 64 -> b1 <> b2 ->
  Check.prepareBuf host buf Check.blockLen b1
  = concat (replicate 512 (object_bytes host 8 (u64 (b1 + 1)))) /\
  Check.prepareBuf host buf Check.blockLen b1
  = Check.prepareBuf host buf' Check.blockLen b1 /\
  Check.prepareBuf host buf Check.blockLen b1 = Check.pattern host b1 /\
  Check.matches host (Check.pattern host b1) b1 = true /\
  u64 (b1 + 1) <> u64 (b2 + 1) /\
  Check.pattern host b1 <> Check.pattern host b2 /\
  Check.matches host (Check.pattern host b1) b2 = false.
Proof.
  intros Hbuf Hbuf' H1 H2 Hne.
  assert (Hd : u64 (b1 + 1) <> u64 (b2 + 1))
    by (intros E; apply Hne, u64_succ_inj; assumption).
  rewrite !matches_pattern, (prepareBuf_tiles host buf), pattern_tiles
    by assumption.
  split; [reflexivity|].
  split; [symmetry; apply prepareBuf_tiles, Hbuf'|].
  split; [reflexivity|].
  split; [apply bool_decide_eq_true; reflexivity|].
  split; [exact Hd|].
  split; [|apply bool_decide_eq_false; exact Hd].
  rewrite <- pattern_tiles. intros E. apply Hd, (pattern_inj host), E.
Qed.

Lemma pattern_deterministic_witness :
  Check.pattern LittleEndian 0 <> Check.pattern LittleEndian 1 /\
  Check.matches LittleEndian (Check.pattern LittleEndian 0) 0 = true.
Proof.
  destruct (pattern_deterministic LittleEndian 0 1
              (replicate Check.blockLen 0) (replicate Check.blockLen 1))
    as (_&_&_&Hm&_&Hne&_).
  - reflexivity.
  - reflexivity.
  - lia.
  - lia.
  - lia.
  - split; [exact Hne|exact Hm].
Defined.

(** * The engine: calls and traces *)

Lemma bind_Return {A B} (tr : list Check.event) (a : A) (k : A -> Check.M B) :
  Check.bind (tr, Check.Return a) k = (tr ++ (k a).1, (k a).2).
Proof. unfold Check.bind. destruct (k a). reflexivity. Qed.

Lemma bind_Throw {A B} (tr : list Check.event) (what : string)
    (k : A -> Check.M B) :
  Check.bind (tr, Check.Throw what) k = (tr, Check.Throw what).
Proof. reflexivity. Qed.

Lemma bind_trace_result {A B} (m : Check.M A) (k : A -> Check.M B) (a : A) :
  m.2 = Check.Return a ->
  Check.bind m k = (m.1 ++ (k a).1, (k a).2).
Proof. destruct m as [tr r]. simpl. intros ->. apply bind_Return. Qed.

Section ReadPass.

Context (host : endianness) (w : Check.world).

Lemma read_block_spec (b : Z) (s : Check.scan) :
  Check.read_block host w b s
  = (block_events w b,
     if aborts w b then Check.Throw "Verification operation aborted"
     else Check.Return (scan_step host w b s)).
Proof.
  unfold Check.read_block, block_events, aborts, reported, io_fail, scan_step,
    Check.cb_readProgress, Check.dev_read.
  destruct (Check.w_read_seq w b) as [buf|]; cbn.
  - destruct (Check.matches host buf b); cbn;
      destruct (b mod 256 =? 0); cbn; try reflexivity;
      destruct (Check.w_readProgress w b false); reflexivity.
  - rewrite orb_true_r.
    destruct (Check.w_readProgress w b true); reflexivity.
Qed.

Lemma scan_step_fail (b : Z) (s : Check.scan) :
  Check.fail (scan_step host w b s) = io_fail w b.
Proof.
  unfold scan_step, io_fail.
  destruct (Check.w_read_seq w b) as [buf|]; [|reflexivity].
  destruct (Check.matches host buf b); reflexivity.
Qed.

Lemma read_loop_complete (count : nat) :
  forall (b : Z) (s : Check.scan),
    (forall c, b <= c < b + Z.of_nat count -> aborts w c = false) ->
    Check.read_loop host w count b s
    = (blocks_events w count b, Check.Return (scan_after host w count b s)).
Proof.
  induction count as [|count IH]; intros b s Hno; [reflexivity|].
  cbn [Check.read_loop]. rewrite read_block_spec, (Hno b) by lia.
  rewrite bind_Return, IH by (intros c Hc; apply Hno; lia).
  reflexivity.
Qed.

Lemma read_loop_abort (count : nat) :
  forall (b : Z) (s : Check.scan) (m : nat),
    (m < count)%nat ->
    (forall c, b <= c < b + Z.of_nat m -> aborts w c = false) ->
    aborts w (b + Z.of_nat m) = true ->
    Check.read_loop host w count b s
    = (blocks_events w (S m) b,
       Check.Throw "Verification operation aborted").
Proof.
  induction count as [|count IH]; intros b s m Hm Hno Hab; [lia|].
  cbn [Check.read_loop]. rewrite read_block_spec.
  destruct m as [|m].
  - rewrite Z.add_0_r in Hab. rewrite Hab, bind_Throw.
    unfold blocks_events. cbn. rewrite app_nil_r. reflexivity.
  - rewrite (Hno b) by lia. rewrite bind_Return.
    rewrite (IH (b + 1) _ m); [reflexivity|lia| |].
    + intros c Hc. apply Hno. lia.
    + rewrite <- Hab. f_equal. lia.
Qed.

Lemma blocks_from_elem (count : nat) :
  forall (b c : Z), c ∈ blocks_from count b <-> b <= c < b + Z.of_nat count.
Proof.
  induction count as [|count IH]; intros b c.
  - cbn. rewrite elem_of_nil. lia.
  - cbn [blocks_from]. rewrite elem_of_cons, IH. lia.
Qed.

Lemma blocks_events_S (count : nat) (b : Z) :
  blocks_events w (S count) b
  = block_events w b ++ blocks_events w count (b + 1).
Proof. reflexivity. Qed.

Lemma blocks_events_report (count : nat) :
  forall b c : Z,
    b <= c < b + Z.of_nat count -> reported w c = true ->
    Check.CbReadProgress c (io_fail w c) ∈ blocks_events w count b.
Proof.
  induction count as [|count IH]; intros b c Hc Hr; [lia|].
  rewrite blocks_events_S, elem_of_app.
  destruct (decide (c = b)) as [->|Hne].
  - left. unfold block_events. rewrite Hr.
    apply elem_of_cons. right. apply list_elem_of_singleton. reflexivity.
  - right. apply IH; [lia|exact Hr].
Qed.

Lemma blocks_events_no_table (count : nat) (b : Z) :
  Forall (fun e => is_table_call e = false) (blocks_events w count b).
Proof.
  revert b. induction count as [|count IH]; intros b; [constructor|].
  rewrite blocks_events_S.
  apply Forall_app. split; [|apply IH].
  unfold block_events. destruct (reported w b); repeat constructor.
Qed.

End ReadPass.

(** * The read pass *)

Section ReadPassRun.

Context (host : endianness) (w : Check.world).

#[local] Abbreviation N := (Check.numBlocks w).

Lemma numBlocks_range : 0 <= N /\ N * 4096 < 2 ^ 64.
Proof.
  unfold Check.numBlocks, Check.DATA_BLOCK_SIZE.
  pose proof (u64_range (Check.w_size w)) as H.
  change (2 ^ 64) with 18446744073709551616 in *.
  Z.div_mod_to_equations. lia.
Qed.

Lemma scan_step_bad (b : Z) (s : Check.scan) :
  scan_step host w b s
  = if bad host w b then Check.mark b (io_fail w b) s
    else Check.set_fail false s.
Proof.
  unfold scan_step, bad, io_fail.
  destruct (Check.w_read_seq w b) as [buf|]; [|reflexivity].
  destruct (Check.matches host buf b); reflexivity.
Qed.

Lemma scan_after_S (count : nat) (b : Z) (s : Check.scan) :
  scan_after host w (S count) b s
  = scan_after host w count (b + 1) (scan_step host w b s).
Proof. reflexivity. Qed.

Lemma scan_after_fail (count : nat) :
  forall (b : Z) (s : Check.scan),
    Check.fail (scan_after host w count b s)
    = match count with
      | O => Check.fail s
      | S n => io_fail w (b + Z.of_nat n)
      end.
Proof.
  induction count as [|count IH]; intros b s; [reflexivity|].
  rewrite scan_after_S, IH. destruct count as [|count].
  - rewrite scan_step_fail. f_equal. lia.
  - f_equal. lia.
Qed.

Lemma scan_first_kept (count : nat) :
  forall (b : Z) (s : Check.scan),
    Check.firstBad s = true ->
    Check.firstBad (scan_after host w count b s) = true /\
    Check.firstBadBlock (scan_after host w count b s) = Check.firstBadBlock s.
Proof.
  induction count as [|count IH]; intros b s Hs; [auto|].
  rewrite scan_after_S, scan_step_bad.
  destruct (bad host w b).
  - destruct (IH (b + 1) (Check.mark b (io_fail w b) s) eq_refl) as [-> ->].
    cbn. rewrite Hs. auto.
  - destruct (IH (b + 1) (Check.set_fail false s) Hs) as [-> ->]. auto.
Qed.

Lemma scan_first_none (count : nat) :
  forall (b : Z) (s : Check.scan),
    Check.firstBad s = false ->
    (forall c, b <= c < b + Z.of_nat count -> bad host w c = false) ->
    Check.firstBad (scan_after host w count b s) = false.
Proof.
  induction count as [|count IH]; intros b s Hs Hno; [exact Hs|].
  rewrite scan_after_S, scan_step_bad, (Hno b) by lia.
  apply IH; [exact Hs|]. intros c Hc. apply Hno. lia.
Qed.

Lemma scan_first_some (count : nat) :
  forall (b : Z) (s : Check.scan) (f : Z),
    Check.firstBad s = false ->
    b <= f < b + Z.of_nat count -> bad host w f = true ->
    (forall c, b <= c < f -> bad host w c = false) ->
    Check.firstBad (scan_after host w count b s) = true /\
    Check.firstBadBlock (scan_after host w count b s) = f.
Proof.
  induction count as [|count IH]; intros b s f Hs Hf Hbad Hno; [lia|].
  rewrite scan_after_S, scan_step_bad.
  destruct (decide (f = b)) as [->|Hne].
  - rewrite Hbad.
    destruct (scan_first_kept count (b + 1) (Check.mark b (io_fail w b) s)
                eq_refl) as [-> ->].
    cbn. rewrite Hs. auto.
  - rewrite (Hno b) by lia.
    apply IH; [exact Hs|lia|exact Hbad|]. intros c Hc. apply Hno. lia.
Qed.

Lemma scan_last_kept (count : nat) :
  forall (b : Z) (s : Check.scan),
    (forall c, b <= c < b + Z.of_nat count -> bad host w c = false) ->
    Check.lastBadBlock (scan_after host w count b s) = Check.lastBadBlock s.
Proof.
  induction count as [|count IH]; intros b s Hno; [reflexivity|].
  rewrite scan_after_S, scan_step_bad, (Hno b) by lia.
  rewrite IH by (intros c Hc; apply Hno; lia). reflexivity.
Qed.

Lemma scan_last_some (count : nat) :
  forall (b : Z) (s : Check.scan) (l : Z),
    b <= l < b + Z.of_nat count -> bad host w l = true ->
    (forall c, l < c < b + Z.of_nat count -> bad host w c = false) ->
    Check.lastBadBlock (scan_after host w count b s) = l.
Proof.
  induction count as [|count IH]; intros b s l Hl Hbad Hno; [lia|].
  rewrite scan_after_S, scan_step_bad.
  destruct (decide (l = b)) as [->|Hne].
  - rewrite Hbad, scan_last_kept; [reflexivity|].
    intros c Hc. apply Hno. lia.
  - apply IH; [lia|exact Hbad|]. intros c Hc. apply Hno. lia.
Qed.

Lemma read_complete :
  (forall c, 0 <= c < N -> aborts w c = false) ->
  Check.read host w
  = ([Check.DevSeek 0; Check.CbReadStart 0 N]
       ++ blocks_events w (Z.to_nat N) 0
       ++ (read_tail host w (scan_after host w (Z.to_nat N) 0 Check.scan0)).1,
     (read_tail host w (scan_after host w (Z.to_nat N) 0 Check.scan0)).2).
Proof.
  intros Hno. pose proof numBlocks_range as HN.
  unfold Check.read, Check.dev_seek, Check.emit.
  rewrite bind_Return, bind_Return.
  rewrite read_loop_complete by (intros c Hc; apply Hno; lia).
  rewrite bind_Return. reflexivity.
Qed.

Lemma read_abort (b : Z) :
  0 <= b < N ->
  (forall c, 0 <= c < b -> aborts w c = false) ->
  aborts w b = true ->
  Check.read host w
  = ([Check.DevSeek 0; Check.CbReadStart 0 N]
       ++ blocks_events w (Z.to_nat (b + 1)) 0,
     Check.Throw "Verification operation aborted").
Proof.
  intros Hb Hno Hab.
  unfold Check.read, Check.dev_seek, Check.emit.
  rewrite bind_Return, bind_Return.
  rewrite (read_loop_abort host w (Z.to_nat N) 0 Check.scan0 (Z.to_nat b)).
  - rewrite bind_Throw. cbn [fst snd].
    replace (Z.to_nat (b + 1)) with (S (Z.to_nat b)) by lia. reflexivity.
  - lia.
  - intros c Hc. apply Hno. lia.
  - rewrite Z2Nat.id by lia. exact Hab.
Qed.

End ReadPassRun.

Section ReadPassClaims.

Context (host : endianness) (w : Check.world).

#[local] Abbreviation N := (Check.numBlocks w).
#[local] Abbreviation final :=
  (scan_after host w (Z.to_nat (Check.numBlocks w)) 0 Check.scan0).

Lemma table_call_trace (fb lb sz : Z) :
  Check.dev_writePartitionTable host w fb lb sz
  = (table_call host w fb lb sz,
     if Check.w_table_ok w then Check.Return tt else Check.Throw "write").
Proof.
  unfold Check.dev_writePartitionTable, Check.dev_write, Check.dev_seek,
    Check.emit, table_call.
  rewrite !bind_Return. destruct (Check.w_table_ok w); reflexivity.
Qed.

Lemma read_tail_spec (s : Check.scan) :
  read_tail host w s
  = ((if Check.fail s then [] else [Check.CbReadProgress (u64 (N - 1)) true])
       ++ [Check.CbReadFinish]
       ++ (if Check.firstBad s
           then table_call host w
                  (u64 (Check.firstBadBlock s * Check.DATA_BLOCK_SIZE))
                  (u64 (u64 ((Check.lastBadBlock s + 1) * Check.DATA_BLOCK_SIZE)
                        - 1))
                  (u64 (N * Check.DATA_BLOCK_SIZE))
           else table_call host w 0 0 (u64 (N * Check.DATA_BLOCK_SIZE))),
     if Check.w_table_ok w then Check.Return tt else Check.Throw "write").
Proof.
  unfold read_tail, Check.cb_readProgress, Check.emit, Check.ret.
  destruct (Check.fail s); cbn [negb]; rewrite !bind_Return;
    destruct (Check.firstBad s); rewrite table_call_trace; reflexivity.
Qed.

Lemma blocks_events_snoc (count : nat) :
  forall b : Z,
    blocks_events w (S count) b
    = blocks_events w count b ++ block_events w (b + Z.of_nat count).
Proof.
  induction count as [|count IH]; intros b.
  - rewrite blocks_events_S. cbn [blocks_events blocks_from map concat].
    rewrite app_nil_r, Z.add_0_r. reflexivity.
  - rewrite blocks_events_S, IH, blocks_events_S, <- app_assoc.
    do 3 f_equal. lia.
Qed.

(** C4.  A read pass that no report aborts ends with one call of
    [writePartitionTable] and no call before it.  If no block was bad, the
    loop leaves [firstBad] false and the call is
    [writePartitionTable(0, 0, numBlocks * 4096)] of the else branch.  If
    [f] is the first and [l] the last bad block, the loop leaves [firstBad]
    true with [firstBadBlock = f] and [lastBadBlock = l], and the call is
    [writePartitionTable(f * 4096, (l + 1) * 4096 - 1, numBlocks * 4096)]. *)
Theorem read_calls_writePartitionTable :
  (forall c, 0 <= c < N -> aborts w c = false) ->
  ((forall c, 0 <= c < N -> bad host w c = false) ->
   Check.firstBad final = false /\
   exists pre,
     Check.trace (Check.read host w)
     = pre ++ table_call host w 0 0 (N * 4096) /\
     Forall (fun e => is_table_call e = false) pre) /\
  (forall f l,
     0 <= f < N -> 0 <= l < N ->
     bad host w f = true -> bad host w l = true ->
     (forall c, 0 <= c < f -> bad host w c = false) ->
     (forall c, l < c < N -> bad host w c = false) ->
     Check.firstBad final = true /\
     Check.firstBadBlock final = f /\
     Check.lastBadBlock final = l /\
     exists pre,
       Check.trace (Check.read host w)
       = pre ++ table_call host w (f * 4096) ((l + 1) * 4096 - 1) (N * 4096) /\
       Forall (fun e => is_table_call e = false) pre).
Proof.
  intros Hno. pose proof (numBlocks_range w) as HN.
  assert (Hpre : forall s : Check.scan,
             Forall (fun e => is_table_call e = false)
               ([Check.DevSeek 0; Check.CbReadStart 0 N]
                  ++ blocks_events w (Z.to_nat N) 0
                  ++ (if Check.fail s then []
                      else [Check.CbReadProgress (u64 (N - 1)) true])
                  ++ [Check.CbReadFinish])).
  { intros s. repeat (apply Forall_app; split).
    - repeat constructor.
    - apply blocks_events_no_table.
    - destruct (Check.fail s); repeat constructor.
    - repeat constructor. }
  unfold Check.trace. rewrite (read_complete host w Hno), read_tail_spec.
  cbn [fst]. unfold Check.DATA_BLOCK_SIZE.
  rewrite (u64_small (N * 4096)) by lia.
  split.
  - intros Hgood.
    assert (Hf : Check.firstBad final = false).
    { apply scan_first_none; [reflexivity|].
      intros c Hc. apply Hgood. lia. }
    split; [exact Hf|]. rewrite Hf.
    eexists. split; [|apply (Hpre final)].
    rewrite <- !app_assoc. reflexivity.
  - intros f l Hf Hl Hbf Hbl Hbefore Hafter.
    destruct (scan_first_some host w (Z.to_nat N) 0 Check.scan0 f)
      as [H1 H2]; [reflexivity|lia|exact Hbf|exact Hbefore|].
    assert (H3 : Check.lastBadBlock final = l).
    { apply scan_last_some; [lia|exact Hbl|].
      intros c Hc. apply Hafter. lia. }
    split; [exact H1|]. split; [exact H2|]. split; [exact H3|].
    rewrite H1, H2, H3.
    rewrite (u64_small (f * 4096)), (u64_small ((l + 1) * 4096)) by lia.
    rewrite (u64_small ((l + 1) * 4096 - 1)) by lia.
    eexists. split; [|apply (Hpre final)].
    rewrite <- !app_assoc. reflexivity.
Qed.

(** C8, as the code has it.  Inside the loop block [c] is reported when
    [c mod 256 = 0] or its read raised an error, with the flag saying
    whether the read raised an error.  If the report of block [b] is the
    first answered with false, the pass stops there with the error
    [Verification operation aborted]: the trace ends with that report and
    blocks after [b] are not read.  If no such report is answered with
    false, every block is read, and the pass does not raise that error,
    whatever the answer to the extra report made after the loop (block
    [numBlocks - 1], flag true, made when the last read raised no error):
    that answer is not looked at. *)
Theorem read_reports_and_aborts :
  (forall b,
     0 <= b < N ->
     (forall c, 0 <= c < b -> aborts w c = false) ->
     aborts w b = true ->
     Check.read host w
     = ([Check.DevSeek 0; Check.CbReadStart 0 N]
          ++ blocks_events w (Z.to_nat b) 0
          ++ [Check.DevRead; Check.CbReadProgress b (io_fail w b)],
        Check.Throw "Verification operation aborted") /\
     (forall c, 0 <= c <= b -> reported w c = true ->
                Check.CbReadProgress c (io_fail w c)
                ∈ Check.trace (Check.read host w))) /\
  ((forall c, 0 <= c < N -> aborts w c = false) ->
   Check.trace (Check.read host w)
   = [Check.DevSeek 0; Check.CbReadStart 0 N]
       ++ blocks_events w (Z.to_nat N) 0
       ++ (if Check.fail final then []
           else [Check.CbReadProgress (u64 (N - 1)) true])
       ++ [Check.CbReadFinish]
       ++ (if Check.firstBad final
           then table_call host w
                  (u64 (Check.firstBadBlock final * Check.DATA_BLOCK_SIZE))
                  (u64 (u64 ((Check.lastBadBlock final + 1)
                             * Check.DATA_BLOCK_SIZE) - 1))
                  (u64 (N * Check.DATA_BLOCK_SIZE))
           else table_call host w 0 0 (u64 (N * Check.DATA_BLOCK_SIZE))) /\
   Check.result (Check.read host w)
   = (if Check.w_table_ok w then Check.Return tt else Check.Throw "write") /\
   (forall c, 0 <= c < N -> reported w c = true ->
              Check.CbReadProgress c (io_fail w c)
              ∈ Check.trace (Check.read host w))).
Proof.
  split.
  - intros b Hb Hno Hab.
    assert (Hrep : reported w b = true).
    { unfold aborts in Hab. apply andb_true_iff in Hab. tauto. }
    assert (Hrun : Check.read host w
                   = ([Check.DevSeek 0; Check.CbReadStart 0 N]
                        ++ blocks_events w (Z.to_nat b) 0
                        ++ [Check.DevRead; Check.CbReadProgress b (io_fail w b)],
                      Check.Throw "Verification operation aborted")).
    { rewrite (read_abort host w b Hb Hno Hab).
      replace (Z.to_nat (b + 1)) with (S (Z.to_nat b)) by lia.
      rewrite blocks_events_snoc. unfold block_events.
      rewrite Z.add_0_l, Z2Nat.id, Hrep by lia. reflexivity. }
    split; [exact Hrun|].
    intros c Hc Hr. rewrite (read_abort host w b Hb Hno Hab).
    unfold Check.trace. cbn [fst].
    apply elem_of_app. right.
    apply blocks_events_report; [lia|exact Hr].
  - intros Hno. unfold Check.trace, Check.result.
    rewrite (read_complete host w Hno), read_tail_spec. cbn [fst snd].
    split; [reflexivity|split; [reflexivity|]].
    intros c Hc Hr. apply elem_of_app. right. apply elem_of_app. left.
      apply blocks_events_report; [lia|exact Hr].
Qed.

End ReadPassClaims.

Lemma sample_never_bad (host : endianness) (n k : Z) (sync : bool)
    (keys : list ascii) (fails : nat) (progress : Z -> bool -> bool) (c : Z) :
  bad host (sample_world host n k sync keys fails progress) c = false.
Proof.
  unfold bad, sample_world. cbn [Check.w_read_seq].
  rewrite matches_pattern, bool_decide_eq_true_2; reflexivity.
Qed.

Lemma sample_io_fail (host : endianness) (n k : Z) (sync : bool)
    (keys : list ascii) (fails : nat) (progress : Z -> bool -> bool) (c : Z) :
  io_fail (sample_world host n k sync keys fails progress) c = false.
Proof. reflexivity. Qed.

Lemma with_bad_block_bad (host : endianness) (w : Check.world) (c : Z) :
  c <> 1 -> bad host (with_bad_block w) c = bad host w c.
Proof.
  intros Hc. unfold bad. cbn [with_bad_block Check.w_read_seq].
  destruct (c =? 1) eqn:E; [|reflexivity].
  apply Z.eqb_eq in E. contradiction.
Qed.

Lemma read_calls_writePartitionTable_witness :
  (exists pre,
     Check.trace
       (Check.read LittleEndian
          (sample_world LittleEndian 2 2 true [] 0 (fun _ _ => true)))
     = pre ++ table_call LittleEndian
                (sample_world LittleEndian 2 2 true [] 0 (fun _ _ => true))
                0 0 (2 * 4096) /\
     Forall (fun e => is_table_call e = false) pre) /\
  (exists pre,
     Check.trace
       (Check.read LittleEndian
          (with_bad_block
             (sample_world LittleEndian 3 3 true [] 0 (fun _ _ => true))))
     = pre ++ table_call LittleEndian
                (with_bad_block
                   (sample_world LittleEndian 3 3 true [] 0 (fun _ _ => true)))
                (1 * 4096) ((1 + 1) * 4096 - 1) (3 * 4096) /\
     Forall (fun e => is_table_call e = false) pre).
Proof.
  split.
  - destruct (read_calls_writePartitionTable LittleEndian
                (sample_world LittleEndian 2 2 true [] 0 (fun _ _ => true)))
      as [Hgood _].
    + intros c _. unfold aborts. cbn [Check.w_readProgress sample_world].
      apply andb_false_r.
    + destruct Hgood as [_ H].
      * intros c _. apply sample_never_bad.
      * exact H.
  - destruct (read_calls_writePartitionTable LittleEndian
                (with_bad_block
                   (sample_world LittleEndian 3 3 true [] 0 (fun _ _ => true))))
      as [_ Hbad].
    + intros c _. unfold aborts.
      cbn [Check.w_readProgress sample_world with_bad_block].
      apply andb_false_r.
    + destruct (Hbad 1 1) as (_&_&_&H).
      * vm_compute. split; [discriminate|reflexivity].
      * vm_compute. split; [discriminate|reflexivity].
      * reflexivity.
      * reflexivity.
      * intros c Hc. rewrite with_bad_block_bad by lia.
        apply sample_never_bad.
      * intros c Hc. rewrite with_bad_block_bad by lia.
        apply sample_never_bad.
      * exact H.
Defined.

(** A pass that no in-loop report aborts and whose last read raised no
    error makes the extra report and ends as the table write ends. *)
Lemma read_final_report (host : endianness) (w : Check.world) :
  (forall c, 0 <= c < Check.numBlocks w -> aborts w c = false) ->
  1 <= Check.numBlocks w ->
  io_fail w (Check.numBlocks w - 1) = false ->
  Check.CbReadProgress (u64 (Check.numBlocks w - 1)) true
  ∈ Check.trace (Check.read host w) /\
  Check.result (Check.read host w)
  = (if Check.w_table_ok w then Check.Return tt else Check.Throw "write").
Proof.
  intros Hno HN Hlast.
  unfold Check.trace, Check.result.
  rewrite (read_complete host w Hno), read_tail_spec. cbn [fst snd].
  split; [|reflexivity].
  rewrite scan_after_fail.
  destruct (Z.to_nat (Check.numBlocks w)) as [|n] eqn:E; [lia|].
  replace (0 + Z.of_nat n) with (Check.numBlocks w - 1) by lia.
  rewrite Hlast.
  apply elem_of_app. right. apply elem_of_app. right.
  apply elem_of_app. left. apply elem_of_cons. left. reflexivity.
Qed.

(** C8 as stated fails: a callback that answers false to a report does not
    always stop the pass.  One good block, a callback that answers false
    whenever the flag is set: the report after the loop is answered with
    false and the pass runs to its end. *)
Lemma final_report_answer_ignored :
  ~ (forall (w : Check.world) (b : Z) (fl : bool),
       Check.CbReadProgress b fl ∈ Check.trace (Check.read LittleEndian w) ->
       Check.w_readProgress w b fl = false ->
       exists what, Check.result (Check.read LittleEndian w) = Check.Throw what).
Proof.
  intros H.
  assert (HN : Check.numBlocks
                 (sample_world LittleEndian 1 1 true [] 0 (fun _ fl => negb fl))
               = 1) by reflexivity.
  destruct (read_final_report LittleEndian
              (sample_world LittleEndian 1 1 true [] 0 (fun _ fl => negb fl)))
    as [Hin Hres].
  - intros c _. unfold aborts. rewrite sample_io_fail.
    cbn [Check.w_readProgress sample_world negb]. apply andb_false_r.
  - rewrite HN. lia.
  - apply sample_io_fail.
  - rewrite HN in Hin. replace (u64 (1 - 1)) with 0 in Hin by reflexivity.
    destruct (H _ 0 true Hin eq_refl) as [what Hwhat].
    rewrite Hres in Hwhat. discriminate.
Qed.

Lemma read_reports_and_aborts_witness :
  Check.result
    (Check.read LittleEndian
       (sample_world LittleEndian 2 2 true [] 0 (fun _ _ => false)))
  = Check.Throw "Verification operation aborted" /\
  Check.result
    (Check.read LittleEndian
       (sample_world LittleEndian 2 2 true [] 0 (fun _ _ => true)))
  = Check.Return tt.
Proof.
  split.
  - destruct (read_reports_and_aborts LittleEndian
                (sample_world LittleEndian 2 2 true [] 0 (fun _ _ => false)))
      as [Habort _].
    destruct (Habort 0) as [Hrun _].
    + vm_compute. split; [discriminate|reflexivity].
    + intros c Hc. lia.
    + reflexivity.
    + unfold Check.result. rewrite Hrun. reflexivity.
  - destruct (read_reports_and_aborts LittleEndian
                (sample_world LittleEndian 2 2 true [] 0 (fun _ _ => true)))
      as [_ Hdone].
    destruct Hdone as (_&Hres&_).
    + intros c _. unfold aborts. cbn [Check.w_readProgress sample_world].
      apply andb_false_r.
    + rewrite Hres. reflexivity.
Defined.

(** * The write pass *)

Section WritePass.

Context (host : endianness) (w : Check.world).

(** The loop of the resume search in the terms of the source:
    [while (remainingBlocks > 1)], with [remainingBlocks /= 2] inside. *)
Lemma resume_loop_unfold (remainingBlocks startBlock : Z) :
  Check.resume_loop host w remainingBlocks startBlock
  = if remainingBlocks >? 1
    then Check.bind
           (Check.resume_probe host w (remainingBlocks / 2) startBlock)
           (fun startBlock' =>
              Check.resume_loop host w (remainingBlocks / 2) startBlock')
    else Check.ret startBlock.
Proof.
  destruct remainingBlocks as [|p|p]; try reflexivity.
  destruct p as [p|p|]; try reflexivity.
  - replace (Z.pos p~1 / 2) with (Z.pos p)
      by (rewrite Pos2Z.inj_xI; Z.div_mod_to_equations; lia).
    reflexivity.
  - replace (Z.pos p~0 / 2) with (Z.pos p)
      by (rewrite Pos2Z.inj_xO; Z.div_mod_to_equations; lia).
    reflexivity.
Qed.

Lemma recover_eof (n : nat) :
  Check.recover w [] n
  = ([Check.StdinKey "n"], Check.Throw "Aborted by user").
Proof. reflexivity. Qed.

Lemma recover_decline (key : ascii) (input : list ascii) (n : nat) :
  Check.is_yes key = false ->
  Check.recover w (key :: input) n
  = ([Check.StdinKey key], Check.Throw "Aborted by user").
Proof.
  intros Hk. cbn [Check.recover Check.cin_key]. rewrite Hk. reflexivity.
Qed.

Lemma recover_reopened (key : ascii) (input : list ascii) (n : nat) :
  Check.is_yes key = true -> Check.w_reopen_ok w n = true ->
  Check.recover w (key :: input) n
  = ([Check.StdinKey key; Check.DevReopen], Check.Return tt).
Proof.
  intros Hk Hr. cbn [Check.recover Check.cin_key]. rewrite Hk.
  unfold Check.dev_reopen. rewrite Hr. reflexivity.
Qed.

Lemma recover_again (key : ascii) (input : list ascii) (n : nat) :
  Check.is_yes key = true -> Check.w_reopen_ok w n = false ->
  Check.recover w (key :: input) n
  = ([Check.StdinKey key; Check.DevReopen]
       ++ (Check.recover w input (S n)).1,
     (Check.recover w input (S n)).2).
Proof.
  intros Hk Hr. cbn [Check.recover Check.cin_key]. rewrite Hk.
  unfold Check.dev_reopen. rewrite Hr.
  cbn [negb Check.emit Check.bind Check.throw Check.try_catch].
  destruct (Check.recover w input (S n)). reflexivity.
Qed.

Lemma recover_retries (keys : list ascii) :
  forall (input : list ascii) (n : nat),
    Forall (fun key => Check.is_yes key = true) keys ->
    (forall i, (i < length keys)%nat -> Check.w_reopen_ok w (n + i) = false) ->
    Check.recover w (keys ++ input) n
    = (retries keys ++ (Check.recover w input (n + length keys)).1,
       (Check.recover w input (n + length keys)).2).
Proof.
  induction keys as [|key keys IH]; intros input n Hyes Hfail.
  - cbn [app length retries map concat]. rewrite Nat.add_0_r.
    destruct (Check.recover w input n). reflexivity.
  - inversion Hyes as [|? ? Hk Hyes']; subst.
    cbn [app]. rewrite recover_again; [|exact Hk|].
    + rewrite IH; [|exact Hyes'|].
      * cbn [fst snd length].
        replace (S n + length keys)%nat with (n + S (length keys))%nat by lia.
        reflexivity.
      * intros i Hi. replace (S n + i)%nat with (n + S i)%nat by lia.
        apply Hfail. cbn [length]. lia.
    + rewrite <- (Nat.add_0_r n). apply Hfail. cbn [length]. lia.
Qed.

Lemma write_sync_failed :
  Check.w_sync_ok w = false ->
  Check.write_sync w
  = ([Check.DevSync; Check.DevClose]
       ++ (Check.recover w (Check.w_stdin w) 0).1,
     (Check.recover w (Check.w_stdin w) 0).2).
Proof.
  intros Hs. unfold Check.write_sync, Check.dev_sync. rewrite Hs.
  cbn [Check.emit Check.bind Check.throw Check.try_catch app].
  destruct (Check.recover w (Check.w_stdin w) 0). reflexivity.
Qed.

Lemma retries_no_write (keys : list ascii) :
  Forall (fun e => is_block_write e = false) (retries keys).
Proof.
  induction keys as [|key keys IH]; [constructor|].
  unfold retries. cbn [map concat app]. repeat constructor. exact IH.
Qed.

Lemma read_starts :
  exists rest,
    Check.trace (Check.read host w)
    = Check.DevSeek 0 :: Check.CbReadStart 0 (Check.numBlocks w) :: rest.
Proof.
  unfold Check.read, Check.dev_seek, Check.emit, Check.trace.
  rewrite !bind_Return. eexists. reflexivity.
Qed.

(** C9.  When [sync()] raises an error the device is closed and the loop
    asks for a key.  Every yes followed by a failed [reopen()] leads to the
    next question.  A yes followed by a successful [reopen()] ends
    [Check::write] normally: after the failed [sync()] the trace holds the
    close, the questions and the reopen attempts and no block write, and
    the read pass follows.  Any other key raises [Aborted by user], and the
    read pass does not start. *)
Theorem sync_failure_recovery
    (keys : list ascii) (key : ascii) (input : list ascii) :
  Check.w_sync_ok w = false ->
  Check.w_stdin w = keys ++ key :: input ->
  Forall (fun k => Check.is_yes k = true) keys ->
  (forall i, (i < length keys)%nat -> Check.w_reopen_ok w i = false) ->
  Check.result (Check.write_blocks host w) = Check.Return tt ->
  (Check.is_yes key = true ->
   Check.w_reopen_ok w (length keys) = true ->
   Check.write_sync w
   = ([Check.DevSync; Check.DevClose] ++ retries keys
        ++ [Check.StdinKey key; Check.DevReopen],
      Check.Return tt) /\
   Forall (fun e => is_block_write e = false)
     ([Check.DevSync; Check.DevClose] ++ retries keys
        ++ [Check.StdinKey key; Check.DevReopen]) /\
   Check.run host w
   = (Check.trace (Check.write_blocks host w)
        ++ ([Check.DevSync; Check.DevClose] ++ retries keys
              ++ [Check.StdinKey key; Check.DevReopen])
        ++ Check.trace (Check.read host w),
      Check.result (Check.read host w)) /\
   exists rest,
     Check.trace (Check.read host w)
     = Check.DevSeek 0 :: Check.CbReadStart 0 (Check.numBlocks w) :: rest) /\
  (Check.is_yes key = false ->
   Check.write_sync w
   = ([Check.DevSync; Check.DevClose] ++ retries keys ++ [Check.StdinKey key],
      Check.Throw "Aborted by user") /\
   Check.run host w
   = (Check.trace (Check.write_blocks host w)
        ++ [Check.DevSync; Check.DevClose] ++ retries keys
        ++ [Check.StdinKey key],
      Check.Throw "Aborted by user")).
Proof.
  intros Hsync Hin Hyes Hfail Hblocks.
  assert (Hrec : Check.write_sync w
                 = ([Check.DevSync; Check.DevClose] ++ retries keys
                      ++ (Check.recover w (key :: input) (length keys)).1,
                    (Check.recover w (key :: input) (length keys)).2)).
  { rewrite write_sync_failed, Hin, recover_retries by assumption.
    reflexivity. }
  assert (Hrun : Check.run host w
                 = (Check.trace (Check.write_blocks host w)
                      ++ (Check.write_sync w).1
                      ++ (if (Check.write_sync w).2 is Check.Return _
                          then Check.trace (Check.read host w) else []),
                    if (Check.write_sync w).2 is Check.Return _
                    then Check.result (Check.read host w)
                    else (Check.write_sync w).2)).
  { unfold Check.run, Check.write, Check.trace, Check.result.
    rewrite (bind_trace_result (Check.write_blocks host w) _ tt Hblocks).
    destruct (Check.write_sync w) as [tr [[]|what]]; cbn [fst snd].
    - rewrite bind_Return, <- app_assoc. reflexivity.
    - rewrite bind_Throw, app_nil_r. reflexivity. }
  split.
  - intros Hk Hopen. rewrite recover_reopened in Hrec by assumption.
    cbn [fst snd] in Hrec. rewrite Hrun, Hrec. cbn [fst snd].
    split; [reflexivity|]. split; [|split; [reflexivity|apply read_starts]].
    repeat (apply Forall_app; split); try apply retries_no_write;
      repeat constructor.
  - intros Hk. rewrite recover_decline in Hrec by assumption.
    cbn [fst snd] in Hrec. rewrite Hrun, Hrec. cbn [fst snd].
    rewrite app_nil_r. split; reflexivity.
Qed.

End WritePass.

(** * The write pass on a device with a written prefix *)

Lemma blank_tiles (host : endianness) :
  replicate Check.blockLen 0 = concat (replicate 512 (object_bytes host 8 0)).
Proof. destruct host; reflexivity. Qed.

Lemma matches_blank (host : endianness) (b : Z) :
  u64 (b + 1) <> 0 -> Check.matches host (replicate Check.blockLen 0) b = false.
Proof.
  intros Hb. unfold Check.matches. apply bool_decide_eq_false.
  rewrite take_ge by (rewrite length_replicate; lia).
  rewrite (blank_tiles host), pattern_tiles. intros E.
  apply (f_equal (take 8)) in E.
  change (replicate 512 ?x) with (x :: replicate 511 x) in E.
  cbn [concat] in E.
  rewrite !take_app_length' in E by (symmetry; apply object_bytes_length).
  apply object_bytes_inj in E; [congruence|lia|apply u64_range].
Qed.

Lemma sample_world_prefix (host : endianness) (n k : Z) (sync : bool)
    (keys : list ascii) (fails : nat) (progress : Z -> bool -> bool) :
  prefix_device host (sample_world host n k sync keys fails progress) k.
Proof.
  intros b Hb. pose proof (numBlocks_range
                             (sample_world host n k sync keys fails progress)).
  cbn [sample_world Check.w_read_at]. unfold prefix_written.
  unfold Check.DATA_BLOCK_SIZE. rewrite Z.div_mul by lia.
  destruct (b <? k).
  - eexists. split; [reflexivity|].
    rewrite matches_pattern. apply bool_decide_eq_true. reflexivity.
  - eexists. split; [reflexivity|].
    apply matches_blank. rewrite u64_small; lia.
Qed.

Section WritePassPrefix.

Context (host : endianness) (w : Check.world) (k : Z).

#[local] Abbreviation N := (Check.numBlocks w).

Hypothesis Hdev : prefix_device host w k.

Lemma resume_probe_prefix (r s : Z) :
  0 <= s < N ->
  Check.resume_probe host w r s
  = ([Check.DevSeek (s * Check.DATA_BLOCK_SIZE); Check.DevRead],
     Check.Return (u64 (if s <? k then s + r else s - r))).
Proof.
  intros Hs. pose proof (numBlocks_range w) as HN.
  destruct (Hdev s Hs) as (buf & Hread & Hm).
  unfold Check.resume_probe, Check.dev_seek, Check.dev_read, Check.emit.
  rewrite u64_small by (unfold Check.DATA_BLOCK_SIZE; lia).
  rewrite Hread. cbv [Check.bind Check.ret]. cbv beta iota. rewrite Hm.
  destruct (s <? k); reflexivity.
Qed.

Lemma resume_loop_pos_prefix (p : positive) :
  forall s : Z,
    Z.pos p <= s -> s + Z.pos p <= N ->
    Check.resume_loop_pos host w p s
    = (probe_events_pos p s k, Check.Return (resume_point_pos p s k)) /\
    1 <= resume_point_pos p s k < N.
Proof.
  pose proof (numBlocks_range w) as HN.
  assert (Hstep : forall (q h : positive) (s : Z),
             Z.pos h + Z.pos h <= Z.pos q ->
             Z.pos q <= s -> s + Z.pos q <= N ->
             (forall s' : Z,
                Z.pos h <= s' -> s' + Z.pos h <= N ->
                Check.resume_loop_pos host w h s'
                = (probe_events_pos h s' k,
                   Check.Return (resume_point_pos h s' k)) /\
                1 <= resume_point_pos h s' k < N) ->
             Check.bind (Check.resume_probe host w (Z.pos h) s)
               (fun s' => Check.resume_loop_pos host w h s')
             = ([Check.DevSeek (s * Check.DATA_BLOCK_SIZE); Check.DevRead]
                  ++ probe_events_pos h
                       (if s <? k then s + Z.pos h else s - Z.pos h) k,
                Check.Return
                  (resume_point_pos h
                     (if s <? k then s + Z.pos h else s - Z.pos h) k)) /\
             1 <= resume_point_pos h
                    (if s <? k then s + Z.pos h else s - Z.pos h) k < N).
  { intros q h s Hq Hlo Hhi IH.
    rewrite resume_probe_prefix by lia. rewrite bind_Return.
    rewrite u64_small by (destruct (s <? k); lia).
    destruct (IH (if s <? k then s + Z.pos h else s - Z.pos h))
      as [-> Hr]; [destruct (s <? k); lia..|].
    split; [reflexivity|exact Hr]. }
  induction p as [h IH|h IH|]; intros s Hlo Hhi.
  - cbn [Check.resume_loop_pos probe_events_pos resume_point_pos].
    apply (Hstep (h~1)%positive); [lia|exact Hlo|exact Hhi|exact IH].
  - cbn [Check.resume_loop_pos probe_events_pos resume_point_pos].
    apply (Hstep (h~0)%positive); [lia|exact Hlo|exact Hhi|exact IH].
  - cbn [Check.resume_loop_pos probe_events_pos resume_point_pos].
    split; [reflexivity|lia].
Qed.

Lemma resume_loop_prefix :
  Check.resume_loop host w (N / 2) (N / 2)
  = (probe_events (N / 2) k, Check.Return (resume_point (N / 2) k)) /\
  0 <= resume_point (N / 2) k <= N.
Proof.
  pose proof (numBlocks_range w) as HN.
  assert (Hhalf : 0 <= N / 2 /\ N / 2 + N / 2 <= N)
    by (Z.div_mod_to_equations; lia).
  unfold Check.resume_loop, probe_events, resume_point.
  destruct (N / 2) as [|p|p] eqn:E.
  - split; [reflexivity|lia].
  - destruct (resume_loop_pos_prefix p (Z.pos p)) as [-> Hr]; [lia..|].
    split; [reflexivity|lia].
  - lia.
Qed.

Lemma write_loop_ok (count : nat) :
  forall b : Z,
    (forall c, Check.w_write_ok w c = true) ->
    Check.write_loop host w count b
    = (write_events host count b, Check.Return tt).
Proof.
  induction count as [|count IH]; intros b Hok; [reflexivity|].
  cbn [Check.write_loop]. unfold Check.dev_write, Check.emit.
  rewrite Hok. unfold write_events. cbn [blocks_from map concat].
  destruct (b mod 256 =? 0); cbv [Check.bind Check.ret]; cbv beta iota;
    rewrite IH by exact Hok; reflexivity.
Qed.

(** The whole of lines 62-111 when block 0 matches and the user resumes. *)
Lemma write_blocks_resumed :
  1 <= k -> 1 <= N ->
  Check.w_resumeWrite w = true ->
  (forall c, Check.w_write_ok w c = true) ->
  Check.write_blocks host w
  = ([Check.DevSeek 0; Check.DevRead; Check.CbResumeWrite]
       ++ probe_events (N / 2) k
       ++ [Check.DevSeek (resume_point (N / 2) k * Check.DATA_BLOCK_SIZE);
           Check.CbWriteStart (resume_point (N / 2) k) N]
       ++ write_events host
            (Z.to_nat (N - resume_point (N / 2) k)) (resume_point (N / 2) k)
       ++ [Check.CbWriteProgress (N - 1); Check.CbWriteFinish],
     Check.Return tt).
Proof.
  intros Hk HN1 Hres Hok. pose proof (numBlocks_range w) as HN.
  destruct (Hdev 0) as (buf & Hread & Hm); [lia|].
  rewrite Z.mul_0_l in Hread.
  assert (Hlt : (0 <? k) = true) by (apply Z.ltb_lt; lia).
  rewrite Hlt in Hm.
  destruct resume_loop_prefix as [Hloop Hrange].
  unfold Check.write_blocks, Check.dev_seek, Check.dev_read,
    Check.cb_resumeWrite, Check.emit, Check.ret.
  rewrite Hread. cbv [Check.bind]. cbv beta iota. rewrite Hm, Hres.
  cbv beta iota. rewrite Hloop. cbv beta iota.
  rewrite write_loop_ok by exact Hok. cbv beta iota.
  rewrite (u64_small (N - 1)) by lia.
  rewrite (u64_small (_ * _)) by (unfold Check.DATA_BLOCK_SIZE; lia).
  rewrite <- !app_assoc. reflexivity.
Qed.

End WritePassPrefix.

Lemma probe_events_quiet (p : positive) :
  forall s k : Z,
    written_data (probe_events_pos p s k) = [] /\
    write_starts (probe_events_pos p s k) = [].
Proof.
  induction p as [h IH|h IH|]; intros s k; cbn [probe_events_pos];
    [| |split; reflexivity];
    destruct (IH (if s <? k then s + Z.pos h else s - Z.pos h) k) as [H1 H2];
    unfold written_data, write_starts in *; cbn [app omap list_omap];
    rewrite H1, H2; split; reflexivity.
Qed.

Lemma write_events_data (host : endianness) (count : nat) :
  forall b : Z,
    written_data (write_events host count b)
    = map (Check.pattern host) (blocks_from count b) /\
    write_starts (write_events host count b) = [].
Proof.
  induction count as [|count IH]; intros b; [split; reflexivity|].
  destruct (IH (b + 1)) as [H1 H2].
  unfold write_events in *. cbn [blocks_from map concat].
  unfold written_data, write_starts in *.
  destruct (b mod 256 =? 0); cbn [app omap list_omap];
    rewrite H1, H2; split; reflexivity.
Qed.

Lemma write_sync_ok (w : Check.world) :
  Check.w_sync_ok w = true ->
  Check.write_sync w = ([Check.DevSync], Check.Return tt).
Proof.
  intros Hs. unfold Check.write_sync, Check.dev_sync. rewrite Hs. reflexivity.
Qed.

(** A resumed write pass on a device with the written prefix [0, k): it
    starts at [resume_point (numBlocks / 2) k] and writes the blocks from
    there to the last one, each once. *)
Lemma write_resumed (host : endianness) (w : Check.world) (k : Z) :
  prefix_device host w k ->
  1 <= k -> 1 <= Check.numBlocks w ->
  Check.w_resumeWrite w = true ->
  (forall c, Check.w_write_ok w c = true) ->
  Check.result (Check.write_blocks host w) = Check.Return tt /\
  write_starts (Check.trace (Check.write_blocks host w))
  = [resume_point (Check.numBlocks w / 2) k] /\
  written_data (Check.trace (Check.write_blocks host w))
  = map (Check.pattern host)
      (blocks_from
         (Z.to_nat (Check.numBlocks w
                    - resume_point (Check.numBlocks w / 2) k))
         (resume_point (Check.numBlocks w / 2) k)).
Proof.
  intros Hdev Hk HN Hres Hok.
  unfold Check.result, Check.trace.
  rewrite (write_blocks_resumed host w k Hdev Hk HN Hres Hok). cbn [fst snd].
  split; [reflexivity|].
  assert (Hq : written_data (probe_events (Check.numBlocks w / 2) k) = [] /\
               write_starts (probe_events (Check.numBlocks w / 2) k) = []).
  { unfold probe_events. destruct (Check.numBlocks w / 2);
      try (split; reflexivity). apply probe_events_quiet. }
  destruct Hq as [Hq1 Hq2].
  destruct (write_events_data host
              (Z.to_nat (Check.numBlocks w
                         - resume_point (Check.numBlocks w / 2) k))
              (resume_point (Check.numBlocks w / 2) k)) as [Hw1 Hw2].
  unfold written_data, write_starts in *.
  rewrite !omap_app, Hq1, Hq2, Hw1, Hw2.
  split; cbn [omap list_omap app]; rewrite ?app_nil_r; reflexivity.
Qed.

(** When the first [remainingBlocks] is a power of two the halving is
    exact, and the search does not pass the end of the written prefix. *)
Lemma resume_point_pow2 (p : positive) :
  forall s k : Z,
    pow2_pos p = true -> s - Z.pos p < k -> resume_point_pos p s k <= k.
Proof.
  induction p as [h IH|h IH|]; intros s k Hp Hs; cbn [resume_point_pos].
  - discriminate.
  - apply IH; [exact Hp|]. destruct (s <? k) eqn:E; [|lia].
    apply Z.ltb_lt in E. lia.
  - lia.
Qed.

(** C2, evaluated on the code.  A device of six blocks of which only block
    0 holds its pattern, so that the written region is exactly [0, 1), and a
    user who resumes.  The search starts with [remainingBlocks = 3] and
    [startBlock = 3], reads block 3, takes [remainingBlocks = 1] and steps
    back to [startBlock = 2], where it stops: the write pass starts at block
    2 and writes blocks 2, 3, 4, 5.  Block 1, which was never written, is
    skipped. *)
Theorem resume_skips_unwritten_block :
  let w := sample_world LittleEndian 6 1 true [] 0 (fun _ _ => true) in
  Check.numBlocks w = 6 /\
  prefix_device LittleEndian w 1 /\
  Check.w_resumeWrite w = true /\
  Check.result (Check.write_blocks LittleEndian w) = Check.Return tt /\
  write_starts (Check.trace (Check.write_blocks LittleEndian w)) = [2] /\
  written_data (Check.trace (Check.write_blocks LittleEndian w))
  = map (Check.pattern LittleEndian) [2; 3; 4; 5].
Proof.
  cbv zeta.
  assert (HN : Check.numBlocks
                 (sample_world LittleEndian 6 1 true [] 0 (fun _ _ => true))
               = 6) by reflexivity.
  split; [exact HN|].
  split; [apply sample_world_prefix|].
  split; [reflexivity|].
  destruct (write_resumed LittleEndian
              (sample_world LittleEndian 6 1 true [] 0 (fun _ _ => true)) 1)
    as (Hr & Hs & Hd).
  - apply sample_world_prefix.
  - lia.
  - rewrite HN. lia.
  - reflexivity.
  - intros c. reflexivity.
  - rewrite HN in Hs, Hd. split; [exact Hr|]. split; [exact Hs|exact Hd].
Qed.

Lemma sync_failure_recovery_witness :
  Check.write_sync
    (sample_world LittleEndian 2 2 false ["y"; "Y"]%char 1 (fun _ _ => true))
  = ([Check.DevSync; Check.DevClose;
      Check.StdinKey "y"; Check.DevReopen;
      Check.StdinKey "Y"; Check.DevReopen],
     Check.Return tt).
Proof.
  destruct (sync_failure_recovery LittleEndian
              (sample_world LittleEndian 2 2 false ["y"; "Y"]%char 1
                 (fun _ _ => true))
              ["y"%char] "Y"%char []) as [Hyes _].
  - reflexivity.
  - reflexivity.
  - repeat constructor.
  - intros i Hi. cbn [length] in Hi.
    assert (i = 0%nat) as -> by lia. reflexivity.
  - destruct (write_resumed LittleEndian
                (sample_world LittleEndian 2 2 false ["y"; "Y"]%char 1
                   (fun _ _ => true)) 2) as [Hr _].
    + apply sample_world_prefix.
    + lia.
    + vm_compute. discriminate.
    + reflexivity.
    + intros c. reflexivity.
    + exact Hr.
  - destruct Hyes as (Hsync&_).
    + reflexivity.
    + reflexivity.
    + exact Hsync.
Defined.

(** * Further properties of the partition-table codec *)

Lemma inserts_splice (i : nat) (src buf : list Z) :
  (i + length src <= length buf)%nat ->
  list_inserts i src buf = take i buf ++ src ++ drop (i + length src) buf.
Proof.
  intros H.
  rewrite <- (take_drop i buf) at 1.
  rewrite <- (take_drop (length src) (drop i buf)) at 1.
  replace i with (length (take i buf) + 0)%nat at 1
    by (rewrite length_take; lia).
  rewrite list_inserts_app_r.
  rewrite list_inserts_0_r by (rewrite length_take, length_drop; lia).
  rewrite drop_drop. reflexivity.
Qed.

Lemma le_bytes_range (n : nat) :
  forall v : Z, Forall (fun b => 0 <= b < 256) (le_bytes n v).
Proof.
  induction n as [|n IH]; intros v; cbn [le_bytes]; constructor.
  - apply Z.mod_pos_bound. lia.
  - apply IH.
Qed.

(** X1.  [store32le] keeps the length of the buffer and changes only the
    four bytes at [dest]; these are bytes, and read back little-endian they
    give the value reduced to 32 bits, so the value itself when it is below
    2^32. *)
Theorem store32le_roundtrip (dest : nat) (val : Z) (buf : list Z) :
  (dest + 4 <= length buf)%nat ->
  length (Device.store32le dest val buf) = length buf /\
  take dest (Device.store32le dest val buf) = take dest buf /\
  drop (dest + 4) (Device.store32le dest val buf) = drop (dest + 4) buf /\
  Forall (fun b => 0 <= b < 256)
    (take 4 (drop dest (Device.store32le dest val buf))) /\
  le_value (take 4 (drop dest (Device.store32le dest val buf)))
  = val mod 2 ^ 32 /\
  (0 <= val < 2 ^ 32 ->
   le_value (take 4 (drop dest (Device.store32le dest val buf))) = val).
Proof.
  intros Hlen. rewrite store32le_spec.
  assert (Hsrc : length (le_bytes 4 (u32 val)) = 4%nat)
    by apply le_bytes_length.
  assert (Hmid : take 4 (drop dest (list_inserts dest (le_bytes 4 (u32 val)) buf))
                 = le_bytes 4 (u32 val)).
  { rewrite inserts_splice by (rewrite Hsrc; lia).
    rewrite drop_app_length' by (rewrite length_take; lia).
    rewrite take_app_length' by (symmetry; exact Hsrc). reflexivity. }
  assert (Hval : le_value (le_bytes 4 (u32 val)) = val mod 2 ^ 32).
  { rewrite le_value_bytes. change (256 ^ Z.of_nat 4) with (2 ^ 32).
    unfold u32. apply Z.mod_mod. lia. }
  split; [apply length_inserts|].
  split.
  { rewrite inserts_splice by (rewrite Hsrc; lia).
    rewrite take_app_length' by (rewrite length_take; lia). reflexivity. }
  split.
  { rewrite inserts_splice by (rewrite Hsrc; lia). rewrite Hsrc.
    rewrite app_assoc.
    rewrite drop_app_length'
      by (rewrite length_app, length_take, Hsrc; lia).
    reflexivity. }
  rewrite Hmid. split; [apply le_bytes_range|].
  split; [exact Hval|].
  intros Hv. rewrite Hval. apply Z.mod_small. exact Hv.
Qed.

Lemma store32le_roundtrip_witness :
  le_value (take 4 (drop 2 (Device.store32le 2 305419896 [9; 9; 9; 9; 9; 9; 9])))
  = 305419896.
Proof.
  destruct (store32le_roundtrip 2 305419896 [9; 9; 9; 9; 9; 9; 9])
    as (_&_&_&_&_&H).
  - cbn [length]. lia.
  - apply H. lia.
Defined.

(** X2.  [writeEntry] keeps the length of the image and changes only bytes
    1 to 15 of its slot: the first byte of the slot (the boot flag) and
    every byte outside the slot are left as they were, and bytes 1 to 15
    depend on the arguments only. *)
Theorem writeEntry_frame (mbr : list Z) (index : nat) (s e t : Z) (j : nat) :
  (j <= 0x1BE + index * 16 \/ 0x1BE + index * 16 + 16 <= j)%nat ->
  length (Device.writeEntry mbr index s e t) = length mbr /\
  Device.writeEntry mbr index s e t !! j = mbr !! j /\
  ((0x1BE + index * 16 + 16 <= length mbr)%nat ->
   take 15 (drop (0x1BE + index * 16 + 1) (Device.writeEntry mbr index s e t))
   = entry_bytes s e t).
Proof.
  intros Hj. rewrite writeEntry_spec.
  assert (Hlen : length (entry_bytes s e t) = 15%nat) by reflexivity.
  split; [apply length_inserts|]. split.
  - destruct Hj as [Hj|Hj].
    + apply list_lookup_inserts_lt. lia.
    + apply list_lookup_inserts_ge. rewrite Hlen. lia.
  - intros Hm. rewrite inserts_splice by (rewrite Hlen; lia).
    rewrite drop_app_length' by (rewrite length_take; lia).
    rewrite take_app_length' by (symmetry; exact Hlen). reflexivity.
Qed.

Lemma writeEntry_frame_witness :
  Device.writeEntry (replicate 512 7) 1 100 200 0x0C !! 462%nat = Some 7.
Proof.
  destruct (writeEntry_frame (replicate 512 7) 1 100 200 0x0C 462)
    as (_&H&_).
  - left. cbn. lia.
  - rewrite H. reflexivity.
Defined.

Lemma chs_packed_decode (lba : Z) :
  chs_decode (chs_packed lba) = lba mod (1024 * 16 * 63).
Proof.
  unfold chs_decode, chs_packed, chs_cylinder, chs_head, chs_sector.
  set (c := lba / (63 * 16)). set (s := lba mod 63 + 1).
  assert (Hs : 0 <= s < 64)
    by (unfold s; pose proof (Z.mod_pos_bound lba 63); lia).
  set (A := Z.shiftr (Z.land c 768) 2).
  assert (HA : A = Z.land (Z.shiftr c 2) 192)
    by (unfold A; rewrite Z.shiftr_land; reflexivity).
  assert (Hs63 : Z.land s 63 = s).
  { change 63 with (Z.ones 6). rewrite Z.land_ones by lia.
    apply Z.mod_small. lia. }
  assert (Hsec : Z.land (Z.lor A s) 63 = s).
  { rewrite Z.land_lor_distr_l, HA, <- Z.land_assoc.
    change (Z.land 192 63) with 0. rewrite Z.land_0_r, Z.lor_0_l.
    exact Hs63. }
  assert (Hhi : Z.land (Z.lor A s) 192 = A).
  { rewrite Z.land_lor_distr_l, HA, <- Z.land_assoc.
    change (Z.land 192 192) with 192.
    rewrite <- Hs63, <- Z.land_assoc. change (Z.land 63 192) with 0.
    rewrite Z.land_0_r, Z.lor_0_r. reflexivity. }
  assert (Hback : Z.shiftl A 2 = Z.land c 768).
  { unfold A. rewrite <- Z.ldiff_ones_r by lia.
    rewrite Z.ldiff_land, <- Z.land_assoc. reflexivity. }
  assert (Hcyl : Z.lor (Z.shiftl (Z.land (Z.lor A s) 192) 2) (Z.land c 255)
                 = c mod 1024).
  { rewrite Hhi, Hback, <- Z.land_lor_distr_r.
    change (Z.lor 768 255) with (Z.ones 10).
    rewrite Z.land_ones by lia. reflexivity. }
  change (Z.lor (Z.shiftr (Z.land c 768) 2) s) with (Z.lor A s).
  rewrite Hcyl, Hsec. unfold c, s.
  Z.div_mod_to_equations. lia.
Qed.

(** X3.  The three CHS bytes hold the LBA modulo 1024 * 16 * 63 = 1,032,192:
    decoded with the geometry of [lba2chs] they give back every LBA below
    that bound, and two LBAs that differ by a multiple of it get the same
    bytes (cylinders above 1023 wrap round, they are not clamped). *)
Theorem lba2chs_wraps (lba n : Z) (chs : nat) (buf : list Z) :
  chs_decode (Device.lba2chs lba 0 [0; 0; 0]) = lba mod 1032192 /\
  (0 <= lba < 1032192 -> chs_decode (Device.lba2chs lba 0 [0; 0; 0]) = lba) /\
  Device.lba2chs (lba + n * 1032192) chs buf = Device.lba2chs lba chs buf.
Proof.
  assert (Hd : chs_decode (Device.lba2chs lba 0 [0; 0; 0]) = lba mod 1032192).
  { rewrite lba2chs_spec.
    change (list_inserts 0 (chs_packed lba) [0; 0; 0]) with (chs_packed lba).
    apply chs_packed_decode. }
  split; [exact Hd|]. split.
  - intros H. rewrite Hd. apply Z.mod_small. exact H.
  - rewrite !lba2chs_spec. f_equal.
    unfold chs_packed, chs_cylinder, chs_head, chs_sector.
    assert (Hc : (lba + n * 1032192) / (63 * 16) = lba / (63 * 16) + n * 1024).
    { replace (n * 1032192) with (n * 1024 * (63 * 16)) by lia.
      apply Z.div_add. lia. }
    assert (Hh : ((lba + n * 1032192) / 63) mod 16 = (lba / 63) mod 16).
    { replace (n * 1032192) with (n * 16384 * 63) by lia.
      rewrite Z.div_add by lia.
      replace (n * 16384) with (n * 1024 * 16) by lia.
      apply Z.mod_add. lia. }
    assert (Hs : (lba + n * 1032192) mod 63 = lba mod 63).
    { replace (n * 1032192) with (n * 16384 * 63) by lia.
      apply Z.mod_add. lia. }
    assert (Hl : forall m, 0 <= m < 1024 ->
                 Z.land (lba / (63 * 16) + n * 1024) m
                 = Z.land (lba / (63 * 16)) m).
    { intros m Hm.
      assert (Hm' : m = Z.land (Z.ones 10) m).
      { rewrite Z.land_comm, Z.land_ones by lia.
        symmetry. apply Z.mod_small. change (2 ^ 10) with 1024. lia. }
      rewrite Hm', !Z.land_assoc, !Z.land_ones by lia.
      change (2 ^ 10) with 1024. rewrite Z.mod_add by lia. reflexivity. }
    rewrite Hc, Hh, Hs, !Hl by lia. reflexivity.
Qed.

Lemma lba2chs_wraps_witness :
  chs_decode (Device.lba2chs 1032191 0 [0; 0; 0]) = 1032191.
Proof.
  destruct (lba2chs_wraps 1032191 0 0 []) as (_&H&_).
  apply H. lia.
Defined.

Lemma fill_whole (host : endianness) (serial : Z) (es : list (Z * Z * Z)) :
  (length es <= 3)%nat ->
  (fill host serial es).1
  = replicate 0x1B8 0 ++ object_bytes host 4 (u32 serial) ++ [0; 0]
      ++ concat (map entry_slot es)
      ++ replicate (16 * (4 - length es)) 0 ++ [0x55; 0xAA].
Proof.
  intros Hlen. unfold fill, entry_slot.
  destruct (object_bytes4_shape host (u32 serial)) as (s1&s2&s3&s4&->).
  destruct es as [|[[b1 e1] t1] [|[[b2 e2] t2] [|[[b3 e3] t3] [|? ?]]]];
    [| | | |simpl in Hlen; lia];
    cbn [foldl Device.addEntry fst snd map length concat];
    rewrite ?writeEntry_spec; name_entry_bytes;
    reflexivity.
Qed.

(** X5.  The image is fixed byte for byte: 440 zero bytes (no boot code),
    the four bytes of the serial number as the host stores them, two zero
    bytes, then for each [writeEntry] call (start, end, type), in order, the
    sixteen bytes 0, CHS of start, type, CHS of end, start and
    end - start + 1 (both little-endian on 32 bits), zeros for the slots
    left, and the signature 0x55 0xAA.  On a little-endian host the serial
    bytes read back as the serial reduced to 32 bits. *)
Theorem writePartitionTable_bytes (host : endianness) (serial fb lb sz : Z) :
  (Device.writePartitionTable host serial fb lb sz).1
  = replicate 0x1B8 0 ++ object_bytes host 4 (u32 serial) ++ [0; 0]
      ++ concat (map (fun e => 0 :: entry_bytes e.1.1 e.1.2 e.2)
                   (emitted fb lb sz))
      ++ replicate (16 * (4 - length (emitted fb lb sz))) 0 ++ [0x55; 0xAA] /\
  le_value
    (take 4 (drop 0x1B8
               (Device.writePartitionTable LittleEndian serial fb lb sz).1))
  = serial mod 2 ^ 32.
Proof.
  split.
  - rewrite writePartitionTable_fill. apply fill_whole, emitted_length.
  - destruct (writePartitionTable_layout LittleEndian serial fb lb sz)
      as (_&_&_&_&_&->).
    cbn [object_bytes]. rewrite le_value_bytes.
    change (256 ^ Z.of_nat 4) with (2 ^ 32). unfold u32.
    apply Z.mod_mod. lia.
Qed.

Lemma end_sector_range (lastBad : Z) :
  0 <= u64 (lastBad + 1) / Device.MBR_SECTOR_SIZE < 2 ^ 55.
Proof.
  pose proof (u64_range (lastBad + 1)) as H.
  unfold Device.MBR_SECTOR_SIZE.
  change (2 ^ 64) with 18446744073709551616 in H.
  change (2 ^ 55) with 36028797018963968.
  Z.div_mod_to_equations. lia.
Qed.

(** The third guard of [writePartitionTable], [end < num - MBR_MIN_PART_SIZE]
    in unsigned arithmetic. *)
Lemma trailing_guard (lastBad size : Z) :
  0 <= size < 2 ^ 64 ->
  let end_ := u64 (lastBad + 1) / Device.MBR_SECTOR_SIZE in
  let num := size / Device.MBR_SECTOR_SIZE in
  (end_ <? u64 (num - Device.MBR_MIN_PART_SIZE))
  = (num <? Device.MBR_MIN_PART_SIZE) || (end_ + Device.MBR_MIN_PART_SIZE <? num).
Proof.
  intros Hsize. cbv zeta.
  pose proof (end_sector_range lastBad) as He.
  assert (Hnum : 0 <= size / Device.MBR_SECTOR_SIZE < 2 ^ 64).
  { unfold Device.MBR_SECTOR_SIZE.
    change (2 ^ 64) with 18446744073709551616 in *.
    Z.div_mod_to_equations. lia. }
  set (end_ := u64 (lastBad + 1) / Device.MBR_SECTOR_SIZE) in *.
  set (num := size / Device.MBR_SECTOR_SIZE) in *.
  change Device.MBR_MIN_PART_SIZE with 32768 in *.
  change (2 ^ 64) with 18446744073709551616 in *.
  change (2 ^ 55) with 36028797018963968 in *.
  unfold u64. change (2 ^ 64) with 18446744073709551616.
  destruct (Z.ltb_spec end_ ((num - 32768) mod 18446744073709551616)),
    (Z.ltb_spec num 32768), (Z.ltb_spec (end_ + 32768) num);
    cbn [orb]; try reflexivity; exfalso;
    Z.div_mod_to_equations; lia.
Qed.

(** X4.  The third guard [end < num - MBR_MIN_PART_SIZE] is unsigned.  With
    [before] entries written by the first two guards: on a device of at
    least 32768 sectors the trailing good entry is written, into slot
    [before], exactly when more than 32768 sectors follow the bad region;
    on a smaller device the subtraction wraps and the entry is written
    whatever the bad region is, also when nothing follows it.  When it is
    written, [partNum] ends as [before + 1], the slot holds start [end] and
    the count [num - end + 1]; when it is not, [partNum] ends as [before]
    and the slot is all zero. *)
Theorem trailing_entry_guard
    (host : endianness) (serial firstBad lastBad size : Z) :
  0 <= size < 2 ^ 64 ->
  let start := firstBad / Device.MBR_SECTOR_SIZE in
  let end_ := u64 (lastBad + 1) / Device.MBR_SECTOR_SIZE in
  let num := size / Device.MBR_SECTOR_SIZE in
  let t := Device.writePartitionTable host serial firstBad lastBad size in
  let leading : nat :=
    if start >? Device.MBR_MIN_PART_SIZE then 1%nat else 0%nat in
  let middle : nat :=
    if negb (start =? 0) && negb (end_ =? 0) then 1%nat else 0%nat in
  let before : nat := (leading + middle)%nat in
  (num < Device.MBR_MIN_PART_SIZE \/ end_ + Device.MBR_MIN_PART_SIZE < num ->
   t.2 = S before /\
   slot t.1 before = 0 :: entry_bytes end_ num Device.MBR_PTYPE_GOOD /\
   stored_count t.1 before = u32 (num - end_ + 1)) /\
  (Device.MBR_MIN_PART_SIZE <= num <= end_ + Device.MBR_MIN_PART_SIZE ->
   t.2 = before /\ slot t.1 before = replicate 16 0).
Proof.
  intros Hsize. cbv zeta.
  destruct (writePartitionTable_slots host serial firstBad lastBad size)
    as (Hn&Hs).
  unfold emitted in Hn, Hs.
  rewrite (trailing_guard lastBad size Hsize) in Hn, Hs.
  revert Hn Hs.
  generalize (Device.writePartitionTable host serial firstBad lastBad size).
  intros t.
  set (start := firstBad / Device.MBR_SECTOR_SIZE).
  set (end_ := u64 (lastBad + 1) / Device.MBR_SECTOR_SIZE).
  set (num := size / Device.MBR_SECTOR_SIZE).
  intros Hn Hs. split.
  - intros Hcase.
    assert (Hg : (num <? Device.MBR_MIN_PART_SIZE)
                 || (end_ + Device.MBR_MIN_PART_SIZE <? num) = true).
    { destruct Hcase as [Hc|Hc]; apply Z.ltb_lt in Hc; rewrite Hc;
        [reflexivity|apply orb_true_r]. }
    rewrite Hg in Hn, Hs.
    destruct (start >? Device.MBR_MIN_PART_SIZE);
      destruct (negb (start =? 0) && negb (end_ =? 0));
      cbn [map length app Nat.sub replicate Nat.add] in Hn, Hs |- *;
      apply list4_inj in Hs; destruct Hs as (H0&H1&H2&H3);
      (split; [exact Hn|]); unfold stored_count;
      rewrite ?H0, ?H1, ?H2;
      (split; [reflexivity|apply entry_slot_count]).
  - intros Hcase.
    assert (Hg : (num <? Device.MBR_MIN_PART_SIZE)
                 || (end_ + Device.MBR_MIN_PART_SIZE <? num) = false).
    { apply orb_false_iff. split; apply Z.ltb_ge; lia. }
    rewrite Hg in Hn, Hs.
    destruct (start >? Device.MBR_MIN_PART_SIZE);
      destruct (negb (start =? 0) && negb (end_ =? 0));
      cbn [map length app Nat.sub replicate Nat.add] in Hn, Hs |- *;
      apply list4_inj in Hs; destruct Hs as (H0&H1&H2&H3);
      (split; [exact Hn|assumption]).
Qed.

Lemma trailing_entry_guard_witness :
  (Device.writePartitionTable LittleEndian 0 0 4095 4096).2 = 1%nat /\
  slot (Device.writePartitionTable LittleEndian 0 0 4095 4096).1 0
  = 0 :: entry_bytes 8 8 0x0C /\
  stored_count (Device.writePartitionTable LittleEndian 0 0 4095 4096).1 0 = 1.
Proof.
  destruct (trailing_entry_guard LittleEndian 0 0 4095 4096) as [H _].
  - lia.
  - apply H. left. reflexivity.
Defined.

(** The calls made for the arguments the read pass gives. *)
Lemma emitted_blocks (f l n : Z) :
  1 <= f <= l -> l < n -> n * 4096 < 2 ^ 64 ->
  emitted (f * 4096) ((l + 1) * 4096 - 1) (n * 4096)
  = (if f >? 4096 then [(0, 8 * f, Device.MBR_PTYPE_GOOD)] else [])
    ++ [(8 * f, 8 * (l + 1), Device.MBR_PTYPE_BAD)]
    ++ (if (n <? 4096) || (l + 1 + 4096 <? n)
        then [(8 * (l + 1), 8 * n, Device.MBR_PTYPE_GOOD)] else []).
Proof.
  intros Hf Hl Hn. change (2 ^ 64) with 18446744073709551616 in Hn.
  unfold emitted, Device.MBR_SECTOR_SIZE.
  change Device.MBR_MIN_PART_SIZE with 32768.
  replace ((l + 1) * 4096 - 1 + 1) with ((l + 1) * 4096) by lia.
  rewrite (u64_small ((l + 1) * 4096))
    by (change (2 ^ 64) with 18446744073709551616; lia).
  replace (f * 4096 / 512) with (8 * f) by (Z.div_mod_to_equations; lia).
  replace ((l + 1) * 4096 / 512) with (8 * (l + 1))
    by (Z.div_mod_to_equations; lia).
  replace (n * 4096 / 512) with (8 * n) by (Z.div_mod_to_equations; lia).
  assert (H1 : (8 * f >? 32768) = (f >? 4096)).
  { rewrite !Z.gtb_ltb.
    destruct (Z.ltb_spec 32768 (8 * f)), (Z.ltb_spec 4096 f);
      reflexivity || lia. }
  assert (H2 : negb (8 * f =? 0) && negb (8 * (l + 1) =? 0) = true).
  { destruct (Z.eqb_spec (8 * f) 0), (Z.eqb_spec (8 * (l + 1)) 0);
      reflexivity || lia. }
  assert (H3 : (8 * (l + 1) <? u64 (8 * n - 32768))
               = (n <? 4096) || (l + 1 + 4096 <? n)).
  { unfold u64. change (2 ^ 64) with 18446744073709551616.
    destruct (Z.ltb_spec (8 * (l + 1))
                ((8 * n - 32768) mod 18446744073709551616)),
      (Z.ltb_spec n 4096), (Z.ltb_spec (l + 1 + 4096) n);
      cbn [orb]; try reflexivity; exfalso;
      Z.div_mod_to_equations; lia. }
  rewrite H1, H2, H3. reflexivity.
Qed.

(** X14.  The table written for the arguments the read pass gives when the
    first bad block is [f >= 1] and the last is [l], on a device of [n]
    blocks (sectors of 512 bytes, eight to a block).  The bad entry, from
    sector 8f, is always written; the leading good entry, from sector 0,
    when more than 4096 blocks (16 MiB) come before the first bad one; the
    trailing good entry, from sector 8(l+1), when more than 4096 blocks
    follow the last bad one or the device has fewer than 4096 blocks.  The
    counts stored are 8f + 1, 8(l + 1 - f) + 1 and 8(n - l - 1) + 1, one
    sector more than the distance to the boundary each time: the leading
    good entry takes in the first bad sector. *)
Theorem table_for_bad_blocks (host : endianness) (serial f l n : Z) :
  1 <= f <= l -> l < n -> n * 4096 < 2 ^ 64 ->
  let t :=
    Device.writePartitionTable host serial
      (f * 4096) ((l + 1) * 4096 - 1) (n * 4096) in
  let leading := f >? 4096 in
  let trailing := (n <? 4096) || (l + 1 + 4096 <? n) in
  let es :=
    (if leading then [(0, 8 * f, Device.MBR_PTYPE_GOOD)] else [])
    ++ [(8 * f, 8 * (l + 1), Device.MBR_PTYPE_BAD)]
    ++ (if trailing
        then [(8 * (l + 1), 8 * n, Device.MBR_PTYPE_GOOD)] else []) in
  t.2 = length es /\
  map (slot t.1) [0; 1; 2; 3]%nat
  = map (fun e => 0 :: entry_bytes e.1.1 e.1.2 e.2) es
    ++ replicate (4 - length es) (replicate 16 0) /\
  map (stored_count t.1) (seq 0 (length es))
  = (if leading then [u32 (8 * f + 1)] else [])
    ++ [u32 (8 * (l + 1 - f) + 1)]
    ++ (if trailing then [u32 (8 * (n - l - 1) + 1)] else []).
Proof.
  intros Hf Hl Hn. cbv zeta.
  destruct (writePartitionTable_slots host serial
              (f * 4096) ((l + 1) * 4096 - 1) (n * 4096)) as (Hlen&Hs).
  rewrite (emitted_blocks f l n Hf Hl Hn) in Hlen, Hs.
  revert Hlen Hs.
  generalize (Device.writePartitionTable host serial
                (f * 4096) ((l + 1) * 4096 - 1) (n * 4096)).
  intros t Hlen Hs.
  split; [exact Hlen|]. split; [exact Hs|].
  replace (8 * (l + 1 - f) + 1) with (8 * (l + 1) - 8 * f + 1) by lia.
  replace (8 * (n - l - 1) + 1) with (8 * n - 8 * (l + 1) + 1) by lia.
  replace (8 * f + 1) with (8 * f - 0 + 1) by lia.
  clear Hlen.
  destruct (f >? 4096); destruct ((n <? 4096) || (l + 1 + 4096 <? n));
    cbn [map length app Nat.sub replicate seq] in Hs |- *;
    apply list4_inj in Hs; destruct Hs as (H0&H1&H2&H3);
    unfold stored_count; rewrite ?H0, ?H1, ?H2, ?entry_slot_count;
    reflexivity.
Qed.

Lemma table_for_bad_blocks_witness :
  map (stored_count
         (Device.writePartitionTable LittleEndian 0
            (5000 * 4096) ((5000 + 1) * 4096 - 1) (20000 * 4096)).1)
    [0; 1; 2]%nat
  = [40001; 9; 119993].
Proof.
  destruct (table_for_bad_blocks LittleEndian 0 5000 5000 20000)
    as (_&_&H); [lia..|exact H].
Defined.

(** * Further properties of the pattern codec *)

Lemma prepareBuf_loop_fills (src : list Z) :
  length src = 8%nat ->
  forall (rounds k : nat) (pre mid post : list Z),
    length mid = (8 * k)%nat -> (k <= rounds)%nat ->
    Check.prepareBuf_loop rounds (length pre) (length pre + 8 * k) src
      (pre ++ mid ++ post)
    = pre ++ concat (replicate k src) ++ post.
Proof.
  intros Hsrc. induction rounds as [|rounds IH]; intros k pre mid post Hmid Hk.
  - assert (k = 0%nat) by lia. subst k.
    destruct mid; [reflexivity|discriminate].
  - cbn [Check.prepareBuf_loop]. destruct k as [|k].
    + replace (length pre + 8 * 0)%nat with (length pre) by lia.
      rewrite Nat.ltb_irrefl. destruct mid; [reflexivity|discriminate].
    + assert (Hlt : (length pre <? length pre + 8 * S k)%nat = true)
        by (apply Nat.ltb_lt; lia).
      rewrite Hlt. unfold memcpy, Check.sizeof_block_t.
      rewrite <- (take_drop 8 mid), <- (app_assoc (take 8 mid)).
      replace (length pre) with (length pre + 0)%nat at 3 by lia.
      rewrite list_inserts_app_r.
      rewrite list_inserts_0_r by (rewrite length_take; lia).
      replace (length pre + 8 * S k)%nat
        with (length (pre ++ src) + 8 * k)%nat by (rewrite length_app; lia).
      replace (length pre + 8)%nat with (length (pre ++ src))
        by (rewrite length_app; lia).
      rewrite (app_assoc pre src).
      rewrite IH by (rewrite ?length_drop; lia).
      cbn [replicate concat]. rewrite <- !app_assoc. reflexivity.
Qed.

(** X6.  For a length [len = 8 k], [prepareBuf] overwrites the first [len]
    bytes of the buffer with [k] copies of the eight bytes of
    [blockNum + 1] and leaves the bytes after them alone; with [len = 0]
    the buffer is unchanged. *)
Theorem prepareBuf_fills_prefix
    (host : endianness) (k : nat) (buf rest : list Z) (b : Z) :
  length buf = (8 * k)%nat ->
  Check.prepareBuf host (buf ++ rest) (8 * k) b
  = concat (replicate k (object_bytes host 8 (u64 (b + 1)))) ++ rest /\
  Check.prepareBuf host rest 0 b = rest.
Proof.
  intros Hbuf. split; [|reflexivity].
  unfold Check.prepareBuf.
  exact (prepareBuf_loop_fills
           (object_bytes host Check.sizeof_block_t (u64 (b + 1)))
           (object_bytes_length _ _ _)
           (8 * k) k [] buf rest Hbuf ltac:(lia)).
Qed.

Lemma prepareBuf_fills_prefix_witness :
  Check.prepareBuf LittleEndian [9; 9; 9; 9; 9; 9; 9; 9; 7; 7] 8 258
  = [3; 1; 0; 0; 0; 0; 0; 0; 7; 7].
Proof.
  destruct (prepareBuf_fills_prefix LittleEndian 1
              [9; 9; 9; 9; 9; 9; 9; 9] [7; 7] 258) as [H _].
  - reflexivity.
  - exact H.
Defined.

(** X7.  The pattern of block [b] is the all-zero block exactly when
    [b + 1] is zero as a 64-bit value: never for block 0 (the reason the
    source adds one), and within the 64-bit range only for the last index
    2^64 - 1. *)
Theorem pattern_blank_iff (host : endianness) (b : Z) :
  (Check.pattern host b = replicate Check.blockLen 0 <-> u64 (b + 1) = 0) /\
  Check.pattern host 0 <> replicate Check.blockLen 0 /\
  (0 <= b < 2 ^ 64 ->
   (Check.pattern host b = replicate Check.blockLen 0 <-> b = 2 ^ 64 - 1)).
Proof.
  assert (Hblank : replicate Check.blockLen 0 = Check.pattern host (-1)).
  { rewrite pattern_tiles. apply blank_tiles. }
  assert (Hiff : forall c, Check.pattern host c = replicate Check.blockLen 0
                           <-> u64 (c + 1) = 0).
  { intros c. rewrite Hblank. split.
    - intros E. apply pattern_inj in E. exact E.
    - intros E. rewrite !pattern_tiles, E. reflexivity. }
  split; [apply Hiff|]. split.
  - rewrite Hiff. discriminate.
  - intros Hb. rewrite Hiff. split; intros H; [|subst b; reflexivity].
    apply u64_succ_inj; [exact Hb|split; [|reflexivity]|rewrite H; reflexivity].
    change (2 ^ 64) with 18446744073709551616. lia.
Qed.

Lemma pattern_blank_iff_witness :
  Check.pattern LittleEndian (2 ^ 64 - 1) = replicate Check.blockLen 0.
Proof.
  destruct (pattern_blank_iff LittleEndian (2 ^ 64 - 1)) as (_&_&H).
  apply H; [|reflexivity].
  change (2 ^ 64) with 18446744073709551616. lia.
Defined.

(** * Further properties of the write pass *)

Lemma write_progress_events (host : endianness) (count : nat) :
  forall b : Z,
    write_progress (write_events host count b)
    = filter (fun c => c mod 256 = 0) (blocks_from count b).
Proof.
  induction count as [|count IH]; intros b; [reflexivity|].
  unfold write_events, write_progress in *.
  cbn [blocks_from map concat]. rewrite filter_cons.
  destruct (decide (b mod 256 = 0)) as [E|E].
  - rewrite E. cbn [Z.eqb app omap list_omap]. rewrite IH. reflexivity.
  - destruct (Z.eqb_spec (b mod 256) 0) as [E'|_]; [contradiction|].
    cbn [app omap list_omap]. apply IH.
Qed.

Section WriteFromStart.

Context (host : endianness) (w : Check.world) (buf : list Z).

#[local] Abbreviation N := (Check.numBlocks w).

Hypothesis Hread : Check.w_read_at w 0 = Check.ReadData buf.
Hypothesis Hfresh : Check.matches host buf 0 && Check.w_resumeWrite w = false.

Lemma write_blocks_head (k : unit -> Check.M unit) :
  Check.bind (Check.dev_seek 0)
    (fun _ =>
       Check.bind (Check.dev_read (Check.w_read_at w 0))
         (fun buf0 =>
            Check.bind
              (if Check.matches host buf0 0
               then Check.bind (Check.cb_resumeWrite w)
                      (fun resume =>
                         if resume
                         then Check.resume_loop host w (N / 2) (N / 2)
                         else Check.ret 0)
               else Check.ret 0)
              (fun startBlock =>
                 Check.bind
                   (Check.dev_seek (u64 (startBlock * Check.DATA_BLOCK_SIZE)))
                   (fun _ =>
                      Check.bind
                        (Check.emit (Check.CbWriteStart startBlock N))
                        (fun _ =>
                           Check.bind
                             (Check.write_loop host w
                                (Z.to_nat (N - startBlock)) startBlock)
                             k)))))
  = (fresh_head host w buf
       ++ (Check.bind (Check.write_loop host w (Z.to_nat N) 0) k).1,
     (Check.bind (Check.write_loop host w (Z.to_nat N) 0) k).2).
Proof.
  unfold fresh_head, Check.dev_seek, Check.dev_read, Check.cb_resumeWrite,
    Check.emit, Check.ret.
  rewrite Hread. cbv [Check.bind]. cbv beta iota.
  destruct (Check.matches host buf 0); cbn [andb] in Hfresh;
    rewrite ?Hfresh; cbv beta iota;
    change (u64 (0 * Check.DATA_BLOCK_SIZE)) with 0; rewrite Z.sub_0_r;
    destruct (Check.write_loop host w (Z.to_nat N) 0) as [tr [[]|what]];
    [destruct (k tt)| |destruct (k tt)|]; reflexivity.
Qed.

Lemma write_blocks_fresh :
  (forall c, Check.w_write_ok w c = true) ->
  Check.write_blocks host w
  = (fresh_head host w buf ++ write_events host (Z.to_nat N) 0
       ++ [Check.CbWriteProgress (u64 (N - 1)); Check.CbWriteFinish],
     Check.Return tt).
Proof.
  intros Hok. unfold Check.write_blocks. rewrite write_blocks_head.
  rewrite write_loop_ok by exact Hok. reflexivity.
Qed.

Lemma write_loop_fails (count : nat) :
  forall (b : Z) (m : nat),
    (m < count)%nat ->
    (forall c, b <= c < b + Z.of_nat m -> Check.w_write_ok w c = true) ->
    Check.w_write_ok w (b + Z.of_nat m) = false ->
    Check.write_loop host w count b
    = (write_events host m b
         ++ (if (b + Z.of_nat m) mod 256 =? 0
             then [Check.CbWriteProgress (b + Z.of_nat m)] else [])
         ++ [Check.DevWrite (Check.pattern host (b + Z.of_nat m))],
       Check.Throw "write").
Proof.
  induction count as [|count IH]; intros b m Hm Hok Hbad; [lia|].
  cbn [Check.write_loop]. unfold Check.dev_write, Check.emit.
  destruct m as [|m].
  - rewrite Z.add_0_r in *. rewrite Hbad.
    destruct (b mod 256 =? 0); reflexivity.
  - rewrite (Hok b) by lia.
    rewrite (IH (b + 1) m); [|lia| |].
    + replace (b + 1 + Z.of_nat m) with (b + Z.of_nat (S m)) by lia.
      unfold write_events. cbn [blocks_from map concat].
      destruct (b mod 256 =? 0); cbv [Check.bind Check.ret]; cbv beta iota;
        rewrite <- ?app_assoc; reflexivity.
    + intros c Hc. apply Hok. lia.
    + rewrite <- Hbad. f_equal. lia.
Qed.

End WriteFromStart.

(** X8.  When block 0 does not hold its pattern, or the user declines to
    resume, and no write fails, the write pass starts at block 0 and writes
    every block of the device once, in order, each with its own pattern.
    [writeProgress] is called for the multiples of 256 and once more at the
    end with [numBlocks - 1] (2^64 - 1 on a device without a block). *)
Theorem write_from_start (host : endianness) (w : Check.world) (buf : list Z) :
  Check.w_read_at w 0 = Check.ReadData buf ->
  Check.matches host buf 0 && Check.w_resumeWrite w = false ->
  (forall c, Check.w_write_ok w c = true) ->
  Check.result (Check.write_blocks host w) = Check.Return tt /\
  write_starts (Check.trace (Check.write_blocks host w)) = [0] /\
  written_data (Check.trace (Check.write_blocks host w))
  = map (Check.pattern host) (blocks_from (Z.to_nat (Check.numBlocks w)) 0) /\
  write_progress (Check.trace (Check.write_blocks host w))
  = filter (fun c => c mod 256 = 0)
      (blocks_from (Z.to_nat (Check.numBlocks w)) 0)
    ++ [u64 (Check.numBlocks w - 1)].
Proof.
  intros Hread Hfresh Hok. unfold Check.result, Check.trace.
  rewrite (write_blocks_fresh host w buf Hread Hfresh Hok). cbn [fst snd].
  destruct (write_events_data host (Z.to_nat (Check.numBlocks w)) 0)
    as [Hd Hs].
  pose proof (write_progress_events host (Z.to_nat (Check.numBlocks w)) 0)
    as Hp.
  unfold fresh_head, written_data, write_starts, write_progress in *.
  rewrite !omap_app, Hd, Hs, Hp.
  destruct (Check.matches host buf 0); repeat split;
    cbn [omap list_omap app]; rewrite ?app_nil_r; reflexivity.
Qed.

Lemma write_from_start_witness :
  write_starts
    (Check.trace
       (Check.write_blocks LittleEndian
          (with_writes false (fun _ => true)
             (sample_world LittleEndian 3 1 true [] 0 (fun _ _ => true)))))
  = [0].
Proof.
  destruct (write_from_start LittleEndian
              (with_writes false (fun _ => true)
                 (sample_world LittleEndian 3 1 true [] 0 (fun _ _ => true)))
              (Check.pattern LittleEndian 0)) as (_&H&_).
  - reflexivity.
  - apply andb_false_r.
  - intros c. reflexivity.
  - exact H.
Defined.

(** X9.  A write that raises an error ends the pass there: with a start at
    block 0 and block [c] the first whose write fails, the blocks before
    [c] are written, the write of [c] is attempted, and [Check::write]
    raises the error without [writeFinish], without [sync()] and without
    touching a later block. *)
Theorem write_error_stops
    (host : endianness) (w : Check.world) (buf : list Z) (c : Z) :
  Check.w_read_at w 0 = Check.ReadData buf ->
  Check.matches host buf 0 && Check.w_resumeWrite w = false ->
  0 <= c < Check.numBlocks w ->
  (forall c', 0 <= c' < c -> Check.w_write_ok w c' = true) ->
  Check.w_write_ok w c = false ->
  Check.write host w
  = (fresh_head host w buf ++ write_events host (Z.to_nat c) 0
       ++ (if c mod 256 =? 0 then [Check.CbWriteProgress c] else [])
       ++ [Check.DevWrite (Check.pattern host c)],
     Check.Throw "write").
Proof.
  intros Hread Hfresh Hc Hok Hbad.
  unfold Check.write, Check.write_blocks.
  rewrite (write_blocks_head host w buf Hread Hfresh).
  rewrite (write_loop_fails host w (Z.to_nat (Check.numBlocks w)) 0
             (Z.to_nat c)).
  - rewrite Z.add_0_l, Z2Nat.id by lia. reflexivity.
  - lia.
  - intros c' Hc'. apply Hok. lia.
  - rewrite Z.add_0_l, Z2Nat.id by lia. exact Hbad.
Qed.

Lemma write_error_stops_witness :
  Check.result
    (Check.write LittleEndian
       (with_writes false (fun b => b <? 1)
          (sample_world LittleEndian 3 1 true [] 0 (fun _ _ => true))))
  = Check.Throw "write".
Proof.
  rewrite (write_error_stops LittleEndian
             (with_writes false (fun b => b <? 1)
                (sample_world LittleEndian 3 1 true [] 0 (fun _ _ => true)))
             (Check.pattern LittleEndian 0) 1).
  - reflexivity.
  - reflexivity.
  - apply andb_false_r.
  - split; [lia|reflexivity].
  - intros c' Hc'. assert (c' = 0) as -> by lia. reflexivity.
  - reflexivity.
Defined.

Lemma log2_probes (p : positive) :
  Z.log2 (Z.pos p~0) = Z.log2 (Z.pos p) + 1 /\
  Z.log2 (Z.pos p~1) = Z.log2 (Z.pos p) + 1.
Proof.
  split.
  - rewrite Pos2Z.inj_xO, Z.log2_double by lia. lia.
  - rewrite Pos2Z.inj_xI, Z.log2_succ_double by lia. lia.
Qed.

Section ResumeBounds.

Context (host : endianness) (w : Check.world).

#[local] Abbreviation N := (Check.numBlocks w).

Hypothesis Hreads : reads_succeed w.

Lemma resume_probe_any (r s : Z) :
  0 <= s < N ->
  exists s',
    Check.resume_probe host w r s
    = ([Check.DevSeek (s * Check.DATA_BLOCK_SIZE); Check.DevRead],
       Check.Return s') /\
    (s' = u64 (s + r) \/ s' = u64 (s - r)).
Proof.
  intros Hs. pose proof (numBlocks_range w) as HN.
  unfold Check.resume_probe, Check.dev_seek, Check.dev_read, Check.emit,
    Check.ret.
  rewrite u64_small by (unfold Check.DATA_BLOCK_SIZE; lia).
  pose proof (Hreads s Hs) as Hr.
  destruct (Check.w_read_at w (s * Check.DATA_BLOCK_SIZE)) as [buf|];
    [|contradiction].
  cbv [Check.bind]. cbv beta iota.
  destruct (Check.matches host buf s); eexists; split; eauto.
Qed.

Lemma resume_loop_pos_bounds (p : positive) :
  forall s : Z,
    Z.pos p <= s -> s + Z.pos p <= N ->
    exists tr s',
      Check.resume_loop_pos host w p s = (tr, Check.Return s') /\
      s - Z.pos p < s' < s + Z.pos p /\
      Z.of_nat (length tr) = 2 * Z.log2 (Z.pos p) /\
      Forall (probe_within N) tr.
Proof.
  pose proof (numBlocks_range w) as HN.
  assert (Hstep : forall (q h : positive) (s : Z),
             Z.pos h + Z.pos h <= Z.pos q <= Z.pos h + Z.pos h + 1 ->
             Z.log2 (Z.pos q) = Z.log2 (Z.pos h) + 1 ->
             Z.pos q <= s -> s + Z.pos q <= N ->
             (forall s1 : Z,
                Z.pos h <= s1 -> s1 + Z.pos h <= N ->
                exists tr s',
                  Check.resume_loop_pos host w h s1 = (tr, Check.Return s') /\
                  s1 - Z.pos h < s' < s1 + Z.pos h /\
                  Z.of_nat (length tr) = 2 * Z.log2 (Z.pos h) /\
                  Forall (probe_within N) tr) ->
             exists tr s',
               Check.bind (Check.resume_probe host w (Z.pos h) s)
                 (fun s1 => Check.resume_loop_pos host w h s1)
               = (tr, Check.Return s') /\
               s - Z.pos q < s' < s + Z.pos q /\
               Z.of_nat (length tr) = 2 * Z.log2 (Z.pos q) /\
               Forall (probe_within N) tr).
  { intros q h s Hq Hlog Hlo Hhi IH.
    destruct (resume_probe_any (Z.pos h) s) as (s1 & Hp & Hs1); [lia|].
    assert (Hs1' : s1 = s + Z.pos h \/ s1 = s - Z.pos h)
      by (destruct Hs1 as [->| ->]; [left|right]; apply u64_small; lia).
    destruct (IH s1) as (tr & s' & Hl & Hb & Hn & Hf); [lia|lia|].
    rewrite Hp, bind_Return, Hl. cbn [fst snd].
    eexists. eexists. split; [reflexivity|].
    split; [lia|]. split.
    - rewrite length_app. cbn [length]. lia.
    - apply Forall_app. split; [|exact Hf].
      repeat constructor; unfold Check.DATA_BLOCK_SIZE; [|lia|lia].
      apply Z.mod_mul. lia. }
  induction p as [h IH|h IH|]; intros s Hlo Hhi.
  - cbn [Check.resume_loop_pos].
    apply (Hstep (h~1)%positive);
      [lia|apply log2_probes|exact Hlo|exact Hhi|exact IH].
  - cbn [Check.resume_loop_pos].
    apply (Hstep (h~0)%positive);
      [lia|apply log2_probes|exact Hlo|exact Hhi|exact IH].
  - cbn [Check.resume_loop_pos]. exists [], s.
    split; [reflexivity|]. split; [lia|]. split; [reflexivity|constructor].
Qed.

End ResumeBounds.

(** X10.  On a device of at least two blocks whose reads succeed, whatever
    its contents, the resume search ends after exactly log2(numBlocks / 2)
    probes, it only reads blocks 1 .. numBlocks - 1, and the block it ends
    on is one of them: a resumed pass never starts at block 0 and always
    has a block left to write. *)
Theorem resume_search_bounds (host : endianness) (w : Check.world) :
  reads_succeed w -> 2 <= Check.numBlocks w ->
  exists tr s,
    Check.resume_loop host w (Check.numBlocks w / 2) (Check.numBlocks w / 2)
    = (tr, Check.Return s) /\
    1 <= s < Check.numBlocks w /\
    Z.of_nat (length tr) = 2 * Z.log2 (Check.numBlocks w / 2) /\
    Forall (probe_within (Check.numBlocks w)) tr.
Proof.
  intros Hreads HN.
  assert (Hhalf : 1 <= Check.numBlocks w / 2 /\
                  Check.numBlocks w / 2 + Check.numBlocks w / 2
                  <= Check.numBlocks w)
    by (Z.div_mod_to_equations; lia).
  unfold Check.resume_loop.
  destruct (Check.numBlocks w / 2) as [|p|p] eqn:E; [lia| |lia].
  destruct (resume_loop_pos_bounds host w Hreads p (Z.pos p))
    as (tr & s & Hl & Hb & Hn & Hf); [lia|lia|].
  exists tr, s. split; [exact Hl|]. split; [lia|]. split; [exact Hn|exact Hf].
Qed.

Lemma sample_reads_succeed (host : endianness) (n k : Z) (sync : bool)
    (keys : list ascii) (fails : nat) (progress : Z -> bool -> bool) :
  reads_succeed (sample_world host n k sync keys fails progress).
Proof.
  intros b _. cbn [sample_world Check.w_read_at]. unfold prefix_written.
  destruct (_ <? _); discriminate.
Qed.

Lemma resume_search_bounds_witness :
  exists tr s,
    Check.resume_loop LittleEndian
      (sample_world LittleEndian 6 1 true [] 0 (fun _ _ => true)) 3 3
    = (tr, Check.Return s) /\ 1 <= s < 6.
Proof.
  destruct (resume_search_bounds LittleEndian
              (sample_world LittleEndian 6 1 true [] 0 (fun _ _ => true)))
    as (tr & s & Hl & Hb & _).
  - apply sample_reads_succeed.
  - vm_compute. discriminate.
  - exists tr, s. split; [exact Hl|exact Hb].
Defined.

Lemma resume_point_pow2_lower (p : positive) :
  forall s k : Z,
    pow2_pos p = true -> k <= s + Z.pos p -> k - 1 <= resume_point_pos p s k.
Proof.
  induction p as [h IH|h IH|]; intros s k Hp Hs; cbn [resume_point_pos].
  - discriminate.
  - apply IH; [exact Hp|]. destruct (s <? k) eqn:E; [lia|].
    apply Z.ltb_ge in E. lia.
  - lia.
Qed.

Lemma pow2_pos_of_power (p : positive) :
  forall m : Z, 0 <= m -> Z.pos p = 2 ^ m -> pow2_pos p = true.
Proof.
  induction p as [h IH|h IH|]; intros m Hm E; cbn [pow2_pos].
  - assert (m = 0 \/ 1 <= m) as [->|Hm1] by lia; [discriminate|].
    replace m with (Z.succ (m - 1)) in E by lia.
    rewrite Z.pow_succ_r in E by lia. lia.
  - assert (m = 0 \/ 1 <= m) as [->|Hm1] by lia; [discriminate|].
    apply (IH (m - 1)); [lia|].
    replace m with (Z.succ (m - 1)) in E by lia.
    rewrite Z.pow_succ_r in E by lia. lia.
  - reflexivity.
Qed.

(** X11.  When [numBlocks / 2] is a power of two the halving of the resume
    search is exact.  On a device whose written blocks are exactly
    [0 .. k-1], a resumed pass then starts at a block [s <= k], so no
    unwritten block is skipped, and at [k - 1] or [k] when
    [k <= 2 * (numBlocks / 2)]: at most one block is written again. *)
Theorem resume_exact_for_power_of_two
    (host : endianness) (w : Check.world) (k m : Z) :
  prefix_device host w k ->
  1 <= k -> 0 <= m -> Check.numBlocks w / 2 = 2 ^ m ->
  Check.w_resumeWrite w = true ->
  (forall c, Check.w_write_ok w c = true) ->
  exists s,
    write_starts (Check.trace (Check.write_blocks host w)) = [s] /\
    s <= k /\
    (k <= 2 * (Check.numBlocks w / 2) -> k - 1 <= s) /\
    written_data (Check.trace (Check.write_blocks host w))
    = map (Check.pattern host)
        (blocks_from (Z.to_nat (Check.numBlocks w - s)) s).
Proof.
  intros Hdev Hk Hm Hpow Hres Hok.
  assert (Hpos : 0 < 2 ^ m) by (apply Z.pow_pos_nonneg; lia).
  assert (HN : 1 <= Check.numBlocks w) by (Z.div_mod_to_equations; lia).
  destruct (write_resumed host w k Hdev Hk HN Hres Hok) as (_ & Hs & Hd).
  exists (resume_point (Check.numBlocks w / 2) k).
  split; [exact Hs|]. split; [|split; [|exact Hd]].
  - unfold resume_point.
    destruct (Check.numBlocks w / 2) as [|p|p] eqn:E; [lia| |lia].
    apply resume_point_pow2; [apply (pow2_pos_of_power p m Hm Hpow)|lia].
  - intros Hk2. unfold resume_point.
    destruct (Check.numBlocks w / 2) as [|p|p] eqn:E; [lia| |lia].
    apply resume_point_pow2_lower;
      [apply (pow2_pos_of_power p m Hm Hpow)|lia].
Qed.

Lemma resume_exact_for_power_of_two_witness :
  exists s,
    write_starts
      (Check.trace
         (Check.write_blocks LittleEndian
            (sample_world LittleEndian 8 3 true [] 0 (fun _ _ => true))))
    = [s] /\ s <= 3.
Proof.
  destruct (resume_exact_for_power_of_two LittleEndian
              (sample_world LittleEndian 8 3 true [] 0 (fun _ _ => true)) 3 2)
    as (s & Hs & Hle & _).
  - apply sample_world_prefix.
  - lia.
  - lia.
  - reflexivity.
  - reflexivity.
  - intros c. reflexivity.
  - exists s. split; [exact Hs|exact Hle].
Defined.

(** X15.  The recovery loop ends when the input does: if every key typed is
    a yes and every [reopen()] fails, then after as many attempts as keys
    the next question finds no key, [key] keeps its initial ['n'], and
    [Check::write] raises [Aborted by user]. *)
Theorem recovery_input_exhausted (w : Check.world) :
  Check.w_sync_ok w = false ->
  Forall (fun k => Check.is_yes k = true) (Check.w_stdin w) ->
  (forall i, (i < length (Check.w_stdin w))%nat ->
             Check.w_reopen_ok w i = false) ->
  Check.write_sync w
  = ([Check.DevSync; Check.DevClose] ++ retries (Check.w_stdin w)
       ++ [Check.StdinKey "n"],
     Check.Throw "Aborted by user").
Proof.
  intros Hsync Hyes Hfail.
  rewrite write_sync_failed by exact Hsync.
  rewrite <- (app_nil_r (Check.w_stdin w)) at 1 2.
  rewrite recover_retries by assumption.
  rewrite recover_eof. reflexivity.
Qed.

Lemma recovery_input_exhausted_witness :
  Check.write_sync
    (sample_world LittleEndian 2 2 false ["y"]%char 5 (fun _ _ => true))
  = ([Check.DevSync; Check.DevClose; Check.StdinKey "y"; Check.DevReopen;
      Check.StdinKey "n"],
     Check.Throw "Aborted by user").
Proof.
  rewrite recovery_input_exhausted.
  - reflexivity.
  - reflexivity.
  - repeat constructor.
  - intros i Hi. cbn [sample_world Check.w_stdin length] in Hi.
    assert (i = 0%nat) as -> by lia. reflexivity.
Defined.

Lemma recover_returns (w : Check.world) (input : list ascii) :
  forall n : nat,
    Check.result (Check.recover w input n) = Check.Return tt ->
    exists i, (i < length input)%nat /\ Check.w_reopen_ok w (n + i) = true /\
              Check.is_yes (nth i input "n"%char) = true.
Proof.
  induction input as [|key input IH]; intros n Hret.
  - rewrite recover_eof in Hret. discriminate.
  - destruct (Check.is_yes key) eqn:Hk.
    + destruct (Check.w_reopen_ok w n) eqn:Hr.
      * exists 0%nat. cbn [length nth]. rewrite Nat.add_0_r.
        split; [lia|]. split; assumption.
      * rewrite recover_again in Hret by assumption.
        destruct (IH (S n) Hret) as (i & Hi & Hopen & Hyes).
        exists (S i). cbn [length nth].
        replace (n + S i)%nat with (S n + i)%nat by lia.
        split; [lia|]. split; assumption.
    + rewrite recover_decline in Hret by assumption. discriminate.
Qed.

(** X16.  After a failed [sync()], [Check::write] returns normally only if
    a [reopen()] succeeded, and the key typed before that attempt was a
    yes: the read pass never runs on a device that was closed and not
    reopened. *)
Theorem write_returns_only_reopened (w : Check.world) :
  Check.w_sync_ok w = false ->
  Check.result (Check.write_sync w) = Check.Return tt ->
  exists i, (i < length (Check.w_stdin w))%nat /\
            Check.w_reopen_ok w i = true /\
            Check.is_yes (nth i (Check.w_stdin w) "n"%char) = true.
Proof.
  intros Hsync Hret. rewrite write_sync_failed in Hret by exact Hsync.
  apply (recover_returns w (Check.w_stdin w) 0 Hret).
Qed.

Lemma write_returns_only_reopened_witness :
  exists i, (i < 2)%nat /\
            Check.w_reopen_ok
              (sample_world LittleEndian 2 2 false ["y"; "Y"]%char 1
                 (fun _ _ => true)) i = true.
Proof.
  destruct (write_returns_only_reopened
              (sample_world LittleEndian 2 2 false ["y"; "Y"]%char 1
                 (fun _ _ => true))) as (i & Hi & Hopen & _).
  - reflexivity.
  - reflexivity.
  - exists i. split; [exact Hi|exact Hopen].
Defined.

(** * Further properties of the read pass *)

Lemma first_abort (w : Check.world) (n : nat) :
  (forall c, 0 <= c < Z.of_nat n -> aborts w c = false) \/
  (exists b, 0 <= b < Z.of_nat n /\ aborts w b = true /\
             forall c, 0 <= c < b -> aborts w c = false).
Proof.
  induction n as [|n [IH|(b & Hb & Hab & Hno)]].
  - left. intros c Hc. lia.
  - destruct (aborts w (Z.of_nat n)) eqn:E.
    + right. exists (Z.of_nat n). split; [lia|]. split; [exact E|exact IH].
    + left. intros c Hc.
      destruct (decide (c = Z.of_nat n)) as [->|Hne]; [exact E|].
      apply IH. lia.
  - right. exists b. split; [lia|]. split; assumption.
Qed.

Lemma blocks_events_elem (w : Check.world) (count : nat) :
  forall (b : Z) (e : Check.event),
    e ∈ blocks_events w count b ->
    e = Check.DevRead \/
    exists c, b <= c < b + Z.of_nat count /\ reported w c = true /\
              e = Check.CbReadProgress c (io_fail w c).
Proof.
  induction count as [|count IH]; intros b e He.
  - apply elem_of_nil in He. contradiction.
  - rewrite blocks_events_S in He. apply elem_of_app in He.
    destruct He as [He|He].
    + unfold block_events in He. apply elem_of_cons in He.
      destruct He as [->|He]; [left; reflexivity|].
      destruct (reported w b) eqn:Hr.
      * apply list_elem_of_singleton in He. right. exists b.
        split; [lia|]. split; assumption.
      * apply elem_of_nil in He. contradiction.
    + destruct (IH (b + 1) e He) as [->|(c & Hc & Hr & ->)];
        [left; reflexivity|].
      right. exists c. split; [lia|]. split; [exact Hr|reflexivity].
Qed.

Lemma table_call_elem (host : endianness) (w : Check.world)
    (fb lb sz : Z) (e : Check.event) :
  e ∈ table_call host w fb lb sz ->
  exists d, e = Check.DevWritePartitionTable fb lb sz \/
            e = Check.DevSeek 0 \/ e = Check.DevWrite d.
Proof.
  unfold table_call. rewrite !elem_of_cons, elem_of_nil.
  intros [->|[->|[->|[]]]]; eexists; eauto.
  Unshelve. all: exact [].
Qed.

(** X12.  Every call of [readProgress] in a read pass is either the report
    of a block of the device from inside the loop, made because its index
    is a multiple of 256 or its read raised an error, with the flag saying
    which, or the one report after the loop for [numBlocks - 1] with the
    flag set.  So a report with the flag clear is always for a multiple of
    256: a block that reads back with wrong data is not reported for that,
    and a report with the flag set for another block than the last means
    its read raised an error. *)
Theorem read_reports_classified
    (host : endianness) (w : Check.world) (c : Z) (fl : bool) :
  Check.CbReadProgress c fl ∈ Check.trace (Check.read host w) ->
  ((0 <= c < Check.numBlocks w /\ reported w c = true /\ fl = io_fail w c) \/
   (c = u64 (Check.numBlocks w - 1) /\ fl = true)) /\
  (fl = false -> c mod 256 = 0 /\ io_fail w c = false) /\
  (fl = true -> c <> u64 (Check.numBlocks w - 1) -> io_fail w c = true).
Proof.
  intros Hin.
  assert (Hclass :
            (0 <= c < Check.numBlocks w /\ reported w c = true /\
             fl = io_fail w c) \/
            (c = u64 (Check.numBlocks w - 1) /\ fl = true)).
  { pose proof (numBlocks_range w) as HN.
    assert (Hblocks : forall n : nat,
               Z.of_nat n <= Check.numBlocks w ->
               Check.CbReadProgress c fl ∈ blocks_events w n 0 ->
               0 <= c < Check.numBlocks w /\ reported w c = true /\
               fl = io_fail w c).
    { intros n Hn He. apply blocks_events_elem in He.
      destruct He as [He|(c' & Hc' & Hr & He)]; [discriminate|].
      injection He as -> ->. split; [lia|]. split; [exact Hr|reflexivity]. }
    unfold Check.trace in Hin.
    destruct (first_abort w (Z.to_nat (Check.numBlocks w)))
      as [Hno|(b & Hb & Hab & Hno)].
    - rewrite (read_complete host w) in Hin
        by (intros c' Hc'; apply Hno; lia).
      rewrite read_tail_spec in Hin. cbn [fst] in Hin.
      rewrite !elem_of_app in Hin.
      destruct Hin as [Hin|[Hin|[Hin|[Hin|Hin]]]].
      + rewrite !elem_of_cons, elem_of_nil in Hin.
        destruct Hin as [Hin|[Hin|[]]]; discriminate.
      + left. apply (Hblocks (Z.to_nat (Check.numBlocks w))); [lia|exact Hin].
      + destruct (Check.fail _).
        * apply elem_of_nil in Hin. contradiction.
        * apply list_elem_of_singleton in Hin. injection Hin as -> ->.
          right. split; reflexivity.
      + apply list_elem_of_singleton in Hin. discriminate.
      + destruct (Check.firstBad _); apply table_call_elem in Hin;
          destruct Hin as (d & [Hin|[Hin|Hin]]); discriminate.
    - rewrite (read_abort host w b) in Hin; [|lia|exact Hno|exact Hab].
      cbn [fst] in Hin. rewrite elem_of_app in Hin.
      destruct Hin as [Hin|Hin].
      + rewrite !elem_of_cons, elem_of_nil in Hin.
        destruct Hin as [Hin|[Hin|[]]]; discriminate.
      + left. apply (Hblocks (Z.to_nat (b + 1))); [lia|exact Hin]. }
  split; [exact Hclass|]. split.
  - intros ->. destruct Hclass as [(_ & Hr & Hf)|[_ Hf]]; [|discriminate].
    unfold reported in Hr. rewrite <- Hf, orb_false_r in Hr.
    split; [apply Z.eqb_eq, Hr|symmetry; exact Hf].
  - intros -> Hne. destruct Hclass as [(_ & _ & Hf)|[Hc _]];
      [symmetry; exact Hf|contradiction].
Qed.

Lemma read_reports_classified_witness :
  0 mod 256 = 0 /\
  io_fail (sample_world LittleEndian 1 1 true [] 0 (fun _ _ => true)) 0 = false.
Proof.
  destruct (read_reports_classified LittleEndian
              (sample_world LittleEndian 1 1 true [] 0 (fun _ _ => true))
              0 false) as (_ & H & _).
  - unfold Check.trace.
    rewrite (read_complete LittleEndian
               (sample_world LittleEndian 1 1 true [] 0 (fun _ _ => true))).
    + cbn [fst]. apply elem_of_app. right. apply elem_of_app. left.
      apply (blocks_events_report
               (sample_world LittleEndian 1 1 true [] 0 (fun _ _ => true))
               1 0 0); [lia|reflexivity].
    + intros c' _. unfold aborts.
      cbn [Check.w_readProgress sample_world]. apply andb_false_r.
  - apply H. reflexivity.
Defined.

(** X13.  When a report from inside the loop is answered with false, the
    pass raises its error at once and nothing else happens: no
    [readFinish], no [writePartitionTable], no write to the device.  The
    device is left without a new partition table. *)
Theorem aborted_pass_writes_no_table
    (host : endianness) (w : Check.world) (b : Z) :
  0 <= b < Check.numBlocks w ->
  (forall c, 0 <= c < b -> aborts w c = false) ->
  aborts w b = true ->
  Check.result (Check.read host w)
  = Check.Throw "Verification operation aborted" /\
  Forall (fun e => is_table_call e = false /\ is_block_write e = false /\
                   e <> Check.CbReadFinish)
    (Check.trace (Check.read host w)).
Proof.
  intros Hb Hno Hab. unfold Check.result, Check.trace.
  rewrite (read_abort host w b Hb Hno Hab). cbn [fst snd].
  split; [reflexivity|].
  apply Forall_app. split.
  - repeat constructor; discriminate.
  - apply Forall_forall. intros e He. apply list_elem_of_In in He.
    apply blocks_events_elem in He.
    destruct He as [->|(c & _ & _ & ->)]; repeat split; discriminate.
Qed.

Lemma aborted_pass_writes_no_table_witness :
  Check.result
    (Check.read LittleEndian
       (sample_world LittleEndian 2 2 true [] 0 (fun _ _ => false)))
  = Check.Throw "Verification operation aborted".
Proof.
  destruct (aborted_pass_writes_no_table LittleEndian
              (sample_world LittleEndian 2 2 true [] 0 (fun _ _ => false)) 0)
    as [H _].
  - vm_compute. split; [discriminate|reflexivity].
  - intros c Hc. lia.
  - reflexivity.
  - exact H.
Defined.

(** * Further properties: a device without a bad block *)

(** X17.  The table after the all-good call [writePartitionTable(0, 0,
    size)], for every device size.  When the device has exactly 32768
    sectors (16 MiB), [num - MBR_MIN_PART_SIZE] is 0, the guard [0 < 0]
    fails and the table stays empty: [partNum] is 0 and the four slots are
    zero.  For every other size, also below 32768 sectors where the
    subtraction wraps, one good entry is written into slot 0, from sector 0
    with the count [num + 1]. *)
Theorem all_good_any_size (host : endianness) (serial size : Z) :
  0 <= size < 2 ^ 64 ->
  let num := size / Device.MBR_SECTOR_SIZE in
  let t := Device.writePartitionTable host serial 0 0 size in
  (num = Device.MBR_MIN_PART_SIZE ->
   t.2 = 0%nat /\
   map (slot t.1) [0; 1; 2; 3]%nat = replicate 4 (replicate 16 0)) /\
  (num <> Device.MBR_MIN_PART_SIZE ->
   t.2 = 1%nat /\
   map (slot t.1) [0; 1; 2; 3]%nat
   = [0 :: entry_bytes 0 num Device.MBR_PTYPE_GOOD;
      replicate 16 0; replicate 16 0; replicate 16 0] /\
   stored_count t.1 0 = u32 (num + 1)).
Proof.
  intros Hsize. cbv zeta. split.
  - intros Hnum.
    destruct (writePartitionTable_slots host serial 0 0 size) as (Hn&Hs).
    rewrite (emitted_all_good size Hsize) in Hn, Hs.
    rewrite Hnum, Z.eqb_refl in Hn, Hs.
    split; [exact Hn|exact Hs].
  - intros Hnum. exact (all_good_table host serial size Hsize Hnum).
Qed.

Lemma all_good_any_size_witness :
  (Device.writePartitionTable LittleEndian 0 0 0 16777216).2 = 0%nat /\
  map (slot (Device.writePartitionTable LittleEndian 0 0 0 16777216).1)
    [0; 1; 2; 3]%nat
  = replicate 4 (replicate 16 0).
Proof.
  destruct (all_good_any_size LittleEndian 0 16777216) as [H _].
  - change (2 ^ 64) with 18446744073709551616. lia.
  - apply H. reflexivity.
Defined.

(** X18.  On a device that reads back every pattern, with a callback that
    never stops the pass, the read pass reads every block, reports the
    multiples of 256 with the flag clear, makes its last report with the
    flag set, calls [readFinish] and then [writePartitionTable(0, 0,
    numBlocks * 4096)]; it returns normally when the table can be
    written. *)
Theorem healthy_device_read (host : endianness) (w : Check.world) :
  (forall b, 0 <= b < Check.numBlocks w ->
             Check.w_read_seq w b = Check.ReadData (Check.pattern host b)) ->
  (forall b, 0 <= b < Check.numBlocks w ->
             Check.w_readProgress w b false = true) ->
  Check.trace (Check.read host w)
  = [Check.DevSeek 0; Check.CbReadStart 0 (Check.numBlocks w)]
      ++ concat
           (map (fun b => Check.DevRead ::
                          (if b mod 256 =? 0
                           then [Check.CbReadProgress b false] else []))
              (blocks_from (Z.to_nat (Check.numBlocks w)) 0))
      ++ [Check.CbReadProgress (u64 (Check.numBlocks w - 1)) true;
          Check.CbReadFinish]
      ++ table_call host w 0 0 (Check.numBlocks w * 4096) /\
  Check.result (Check.read host w)
  = (if Check.w_table_ok w then Check.Return tt else Check.Throw "write").
Proof.
  intros Hgood Hgo. pose proof (numBlocks_range w) as HN.
  assert (Hio : forall b, 0 <= b < Check.numBlocks w -> io_fail w b = false)
    by (intros b Hb; unfold io_fail; rewrite Hgood by exact Hb; reflexivity).
  assert (Hbad : forall b, 0 <= b < Check.numBlocks w -> bad host w b = false).
  { intros b Hb. unfold bad. rewrite Hgood, matches_pattern by exact Hb.
    rewrite bool_decide_eq_true_2; reflexivity. }
  assert (Hno : forall c, 0 <= c < Check.numBlocks w -> aborts w c = false).
  { intros c Hc. unfold aborts. rewrite Hio, Hgo by exact Hc.
    apply andb_false_r. }
  assert (Hev : forall (n : nat) (b : Z),
             0 <= b -> b + Z.of_nat n <= Check.numBlocks w ->
             blocks_events w n b
             = concat
                 (map (fun b => Check.DevRead ::
                                (if b mod 256 =? 0
                                 then [Check.CbReadProgress b false] else []))
                    (blocks_from n b))).
  { induction n as [|n IH]; intros b Hb Hn; [reflexivity|].
    rewrite blocks_events_S, IH by lia. cbn [blocks_from map concat].
    unfold block_events, reported. rewrite Hio, orb_false_r by lia.
    reflexivity. }
  unfold Check.trace, Check.result.
  rewrite (read_complete host w Hno), read_tail_spec. cbn [fst snd].
  split; [|reflexivity].
  rewrite scan_first_none;
    [|reflexivity|intros c Hc; apply Hbad; lia].
  rewrite scan_after_fail.
  assert (Hfail : match Z.to_nat (Check.numBlocks w) with
                  | O => Check.fail Check.scan0
                  | S n => io_fail w (0 + Z.of_nat n)
                  end = false).
  { destruct (Z.to_nat (Check.numBlocks w)) eqn:E; [reflexivity|].
    apply Hio. lia. }
  rewrite Hfail, Hev by lia.
  unfold Check.DATA_BLOCK_SIZE.
  rewrite (u64_small (Check.numBlocks w * 4096)) by lia.
  reflexivity.
Qed.

Lemma healthy_device_read_witness :
  Check.result
    (Check.read LittleEndian
       (sample_world LittleEndian 2 2 true [] 0 (fun _ _ => true)))
  = Check.Return tt.
Proof.
  destruct (healthy_device_read LittleEndian
              (sample_world LittleEndian 2 2 true [] 0 (fun _ _ => true)))
    as [_ H].
  - intros b _. reflexivity.
  - intros b _. reflexivity.
  - exact H.
Defined.

(** * The console callback *)

Lemma ui_readProgress_cases (d b : Z) (fl : bool) (st st' : ConsoleUI.ui)
    (go : bool) :
  ConsoleUI.readProgress d b fl st = Some (st', go) ->
  (fl = false /\ go = true /\ ConsoleUI.firstReadError st' = 0) \/
  (fl = true /\ ConsoleUI.firstReadError st = 0 /\ go = true /\
   ConsoleUI.firstReadError st' = d) \/
  (fl = true /\ ConsoleUI.firstReadError st <> 0 /\
   ConsoleUI.firstReadError st' = ConsoleUI.firstReadError st /\
   go = negb (d - ConsoleUI.firstReadError st >? 15)).
Proof.
  unfold ConsoleUI.readProgress, ConsoleUI.MAX_READ_ERROR_TIME.
  destruct (u64 (ConsoleUI.numBlocks st - 1) =? 0); [discriminate|].
  set (estimate := (0 <? b) && negb (d =? ConsoleUI.lastDuration st)).
  destruct (estimate && (u64 (b - ConsoleUI.startBlock st) =? 0));
    [discriminate|].
  assert (Hfre : ConsoleUI.firstReadError
                   (if estimate then ConsoleUI.set_lastDuration d st else st)
                 = ConsoleUI.firstReadError st)
    by (destruct estimate; reflexivity).
  destruct fl.
  - rewrite Hfre.
    destruct (Z.eqb_spec (ConsoleUI.firstReadError st) 0) as [E|E].
    + intros H. injection H as <- <-. right. left. auto.
    + right. right.
      destruct (d - ConsoleUI.firstReadError st >? 15);
        injection H as <- <-; rewrite Hfre; auto.
  - intros H. injection H as <- <-. left. auto.
Qed.

Lemma ui_after_invariant (n : Z) (st0 : ConsoleUI.ui) (rs : list (Z * Z * bool)) :
  forall st : ConsoleUI.ui,
    ConsoleUI.after rs (ConsoleUI.readStart 0 n st0) = Some st ->
    ConsoleUI.firstReadError st = 0 \/
    exists before d0 b0 since,
      rs = before ++ (d0, b0, true) :: since /\
      Forall (fun r : Z * Z * bool => r.2 = true) since /\
      ConsoleUI.firstReadError st = d0 /\ d0 <> 0.
Proof.
  induction rs as [|[[d b] fl] rs IH] using rev_ind; intros st Hst.
  - injection Hst as <-. left. reflexivity.
  - unfold ConsoleUI.after in *. rewrite foldl_app in Hst.
    cbn [foldl] in Hst.
    destruct (foldl ConsoleUI.report
                (Some (ConsoleUI.readStart 0 n st0)) rs) as [st1|];
      [|discriminate].
    cbn [ConsoleUI.report fst snd] in Hst.
    destruct (ConsoleUI.readProgress d b fl st1) as [[st2 go]|] eqn:E;
      [|discriminate].
    injection Hst as <-.
    destruct (ui_readProgress_cases d b fl st1 st2 go E)
      as [(_ & _ & H0)|[(-> & H1 & _ & Hd)|(-> & H1 & Hkeep & _)]].
    + left. exact H0.
    + destruct (decide (d = 0)) as [->|Hne]; [left; exact Hd|].
      right. exists rs, d, b, []. repeat split; auto.
    + destruct (IH st1 eq_refl)
        as [H0|(before & d0 & b0 & since & -> & Hall & Hfre & Hne)];
        [contradiction|].
      right. exists before, d0, b0, (since ++ [(d, b, true)]).
      split; [rewrite <- app_assoc; reflexivity|].
      split; [apply Forall_app; split; [exact Hall|repeat constructor]|].
      split; [congruence|exact Hne].
Qed.

(** X19.  [ConsoleUI::readProgress] answers false, which stops the read
    pass, only at a report with the flag set that follows an unbroken run
    of reports with the flag set, the first of them made at a duration
    other than 0 and more than 15 seconds earlier.  A report with the flag
    clear is always answered with true and ends the run. *)
Theorem console_timeout_policy
    (n : Z) (st0 st st' : ConsoleUI.ui) (rs : list (Z * Z * bool))
    (d b : Z) (fl go : bool) :
  ConsoleUI.after rs (ConsoleUI.readStart 0 n st0) = Some st ->
  ConsoleUI.readProgress d b fl st = Some (st', go) ->
  (fl = false -> go = true /\ ConsoleUI.firstReadError st' = 0) /\
  (go = false ->
   fl = true /\
   exists before d0 b0 since,
     rs = before ++ (d0, b0, true) :: since /\
     Forall (fun r : Z * Z * bool => r.2 = true) since /\
     d0 <> 0 /\ d - d0 > ConsoleUI.MAX_READ_ERROR_TIME).
Proof.
  intros Hafter Hstep.
  destruct (ui_readProgress_cases d b fl st st' go Hstep)
    as [(-> & -> & H0)|[(-> & _ & -> & _)|(-> & Hne & _ & ->)]].
  - split; [auto|discriminate].
  - split; discriminate.
  - split; [discriminate|]. intros Hgo. split; [reflexivity|].
    destruct (ui_after_invariant n st0 rs st Hafter)
      as [H0|(before & d0 & b0 & since & -> & Hall & Hfre & Hd0)];
      [contradiction|].
    exists before, d0, b0, since. repeat split; auto.
    apply negb_false_iff in Hgo. rewrite Hfre in Hgo.
    unfold ConsoleUI.MAX_READ_ERROR_TIME. lia.
Qed.

Lemma console_timeout_policy_witness :
  exists before d0 b0 since,
    [(3, 1, true); (10, 2, true)] = before ++ (d0, b0, true) :: since /\
    d0 <> 0 /\ 20 - d0 > 15.
Proof.
  destruct (console_timeout_policy 100
              (ConsoleUI.readStart 0 100
                 {| ConsoleUI.startBlock := 0; ConsoleUI.numBlocks := 0;
                    ConsoleUI.lastDuration := 0;
                    ConsoleUI.firstReadError := 0 |})
              {| ConsoleUI.startBlock := 0; ConsoleUI.numBlocks := 100;
                 ConsoleUI.lastDuration := 10;
                 ConsoleUI.firstReadError := 3 |}
              {| ConsoleUI.startBlock := 0; ConsoleUI.numBlocks := 100;
                 ConsoleUI.lastDuration := 20;
                 ConsoleUI.firstReadError := 3 |}
              [(3, 1, true); (10, 2, true)] 20 3 true false) as [_ H].
  - reflexivity.
  - reflexivity.
  - destruct (H eq_refl) as (_ & before & d0 & b0 & since & E & _ & Hd & Hgt).
    exists before, d0, b0, since. split; [exact E|]. split; [exact Hd|exact Hgt].
Defined.
